(** * Dictum: the sherpa-onnx bridging header

    The repository consists of one file, [SherpaOnnx-Bridging-Header.h]:
    a header guard around a single [#import] of the sherpa-onnx C API.

    This development embeds the text of that file, the classifier that
    turns its lines into directives, and the preprocessor's treatment of
    those directives: conditionals, macro definitions, and the inclusion
    of headers by [#include] and [#import].  The external header
    [sherpa-onnx/c-api/c-api.h] is not part of the repository: it is
    whatever the header search environment holds under that name, so the
    environment is a parameter of the preprocessor below.

    A line of text is emitted as its tokens after macro expansion, so
    a macro defined before a declaration is read changes what the
    declaration says.

    Not modelled: [#if] and [#elif] expressions, macros with parameters,
    the operators of macro bodies, predefined macros, block comments,
    line continuations, and modules. *)

From stdpp Require Import gmap strings list fin_maps.
From Stdlib Require Import Ascii String.

Local Open Scope string_scope.

(** ** Lines of a header *)

(** One line of a header after classification. *)
Inductive line : Type :=
  | Blank
  | Comment (text : string)
  | Ifdef (m : string)
  | Ifndef (m : string)
  | Else
  | Endif
  | Define (m : string) (body : string)
  | Undef (m : string)
  | Include (path : string)
  | Import (path : string)
  | ErrorDirective (msg : string)
  | Pragma (arg : string)
  | BadDirective (name : string)
  | Text (t : string).

#[global] Instance line_eq_dec : EqDecision line.
Proof. solve_decision. Defined.

(** ** The line classifier *)

Module Lexer.

Definition dquote : ascii := "034"%char.
Definition tab : ascii := "009"%char.

Definition is_space (c : ascii) : bool :=
  Ascii.eqb c " "%char || Ascii.eqb c tab.

Definition is_ident_char (c : ascii) : bool :=
  let n := nat_of_ascii c in
  (Nat.leb 48 n && Nat.leb n 57) || (Nat.leb 65 n && Nat.leb n 90)
  || (Nat.leb 97 n && Nat.leb n 122) || Nat.eqb n 95.

Fixpoint skip_spaces (s : string) : string :=
  match s with
  | String c r => if is_space c then skip_spaces r else s
  | EmptyString => EmptyString
  end.

Fixpoint drop_trailing_spaces (s : string) : string :=
  match s with
  | EmptyString => EmptyString
  | String c r =>
      match drop_trailing_spaces r with
      | EmptyString => if is_space c then EmptyString else String c EmptyString
      | r' => String c r'
      end
  end.

Definition trim (s : string) : string := drop_trailing_spaces (skip_spaces s).

(** Cuts a line at the first [//] that is not inside a quoted string:
    the code before it, and the comment's text when there is one. *)
Fixpoint strip_comment (in_quote : bool) (s : string) : string * option string :=
  match s with
  | EmptyString => (EmptyString, None)
  | String c r =>
      let keep q := let '(code, cm) := strip_comment q r in (String c code, cm) in
      if in_quote then keep (negb (Ascii.eqb c dquote))
      else if Ascii.eqb c dquote then keep true
      else match r with
           | String c' r' =>
               if Ascii.eqb c "/"%char && Ascii.eqb c' "/"%char
               then (EmptyString, Some r') else keep false
           | EmptyString => keep false
           end
  end.

(** The longest prefix of characters satisfying [p], and the rest. *)
Fixpoint span (p : ascii → bool) (s : string) : string * string :=
  match s with
  | String c r =>
      if p c then let '(w, rest) := span p r in (String c w, rest)
      else (EmptyString, s)
  | EmptyString => (EmptyString, EmptyString)
  end.

Fixpoint take_until (stop : ascii) (s : string) : option string :=
  match s with
  | EmptyString => None
  | String c r =>
      if Ascii.eqb c stop then Some EmptyString
      else String c <$> take_until stop r
  end.

(** The header name of an inclusion: ["name"] or [<name>]. *)
Definition parse_path (arg : string) : option string :=
  match arg with
  | String c r =>
      if Ascii.eqb c dquote then take_until dquote r
      else if Ascii.eqb c "<"%char then take_until ">"%char r
      else None
  | EmptyString => None
  end.

Definition with_macro_name (k : string → string → line) (bad : string)
    (arg : string) : line :=
  match span is_ident_char arg with
  | (EmptyString, _) => BadDirective bad
  | (m, rest) => k m (trim rest)
  end.

(** [s] is the text that follows the [#]. *)
Definition parse_directive (s : string) : line :=
  let '(name, rest) := span is_ident_char (skip_spaces s) in
  let arg := trim rest in
  if String.eqb name "ifndef" then with_macro_name (λ m _, Ifndef m) name arg
  else if String.eqb name "ifdef" then with_macro_name (λ m _, Ifdef m) name arg
  else if String.eqb name "else" then Else
  else if String.eqb name "endif" then Endif
  else if String.eqb name "define" then with_macro_name Define name arg
  else if String.eqb name "undef" then with_macro_name (λ m _, Undef m) name arg
  else if String.eqb name "include" then
    match parse_path arg with Some p => Include p | None => BadDirective name end
  else if String.eqb name "import" then
    match parse_path arg with Some p => Import p | None => BadDirective name end
  else if String.eqb name "error" then ErrorDirective arg
  else if String.eqb name "pragma" then Pragma arg
  else if String.eqb name "" then
    match arg with EmptyString => Blank | _ => BadDirective arg end
  else BadDirective name.

Definition parse_line (s : string) : line :=
  let '(code, cm) := strip_comment false s in
  match trim code with
  | EmptyString => match cm with Some t => Comment t | None => Blank end
  | String c r =>
      if Ascii.eqb c "#"%char then parse_directive r else Text (String c r)
  end.

Definition quoted (s : string) : string :=
  String dquote (s ++ String dquote EmptyString).

End Lexer.

(** ** Tokens and macro expansion *)

(** A preprocessing token: a name, which may be a macro, or any other
    token: a number, a string or character literal, a run of
    punctuation. *)
Inductive token : Type :=
  | Name (x : string)
  | Other (s : string).

(** What the scanner is in the middle of. *)
Inductive mode : Type :=
  | Gap
  | InName
  | InNumber
  | InPunct
  | InQuote (q : ascii) (escaped : bool).

Definition is_digit (c : ascii) : bool :=
  let n := nat_of_ascii c in Nat.leb 48 n && Nat.leb n 57.

Definition is_quote (c : ascii) : bool :=
  Ascii.eqb c "034"%char || Ascii.eqb c "039"%char.

Definition backslash : ascii := "092"%char.

Definition snoc (s : string) (c : ascii) : string := s ++ String c EmptyString.

(** The token that ends when the scanner leaves mode [m]. *)
Definition flush (m : mode) (cur : string) : list token :=
  match m with
  | Gap => []
  | InName => [Name cur]
  | InNumber | InPunct | InQuote _ _ => [Other cur]
  end.

(** Splits text into tokens; blanks separate tokens and are dropped. *)
Fixpoint scan (m : mode) (cur : string) (s : string) : list token :=
  match s with
  | EmptyString => flush m cur
  | String c r =>
      match m with
      | InQuote q escaped =>
          if escaped then scan (InQuote q false) (snoc cur c) r
          else if Ascii.eqb c backslash then scan (InQuote q true) (snoc cur c) r
          else if Ascii.eqb c q then Other (snoc cur c) :: scan Gap EmptyString r
          else scan (InQuote q false) (snoc cur c) r
      | _ =>
          if Lexer.is_space c then (flush m cur ++ scan Gap EmptyString r)%list
          else if is_quote c then
            (flush m cur ++ scan (InQuote c false) (String c EmptyString) r)%list
          else if Lexer.is_ident_char c then
            match m with
            | InName => scan InName (snoc cur c) r
            | InNumber => scan InNumber (snoc cur c) r
            | _ =>
                (flush m cur ++
                 scan (if is_digit c then InNumber else InName)
                      (String c EmptyString) r)%list
            end
          else
            match m with
            | InPunct => scan InPunct (snoc cur c) r
            | InNumber =>
                if Ascii.eqb c "."%char then scan InNumber (snoc cur c) r
                else (flush m cur ++ scan InPunct (String c EmptyString) r)%list
            | _ => (flush m cur ++ scan InPunct (String c EmptyString) r)%list
            end
      end
  end.

Definition tokenize (s : string) : list token := scan Gap EmptyString s.

(** The spellings of the tokens [ts] after macro expansion with the
    table [M].  A name that [M] defines is replaced by the expansion of
    its body, in which the name itself is no longer a macro.  [fuel]
    bounds the nesting of replacements; the size of [M] is enough. *)
Fixpoint expand (fuel : nat) (M : gmap string string) : list token → list string :=
  fix go (ts : list token) : list string :=
    match ts with
    | [] => []
    | Other s :: r => s :: go r
    | Name x :: r =>
        (match M !! x with
         | Some body =>
             match fuel with
             | 0 => [x]
             | S f => expand f (delete x M) (tokenize body)
             end
         | None => [x]
         end ++ go r)%list
    end.

(** A line of text as it is emitted when the macros [M] are defined. *)
Definition expand_line (M : gmap string string) (t : string) : list string :=
  expand (size M) M (tokenize t).

(** Whether the name [x] is among the tokens [ts], or among the tokens
    of the text [t]. *)
Definition names_tokens (x : string) (ts : list token) : bool :=
  existsb (λ tok, match tok with Name y => String.eqb y x | Other _ => false end) ts.

Definition names (x : string) (t : string) : bool := names_tokens x (tokenize t).

(** ** The source file *)

(** The guard macro of the header (lines 6, 7 and 11). *)
Definition SHERPAONNX_BRIDGING_HEADER_H_ : string := "SHERPAONNX_BRIDGING_HEADER_H_".

(** The header name on line 9. *)
Definition c_api_h : string := "sherpa-onnx/c-api/c-api.h".

(** The name of the file itself. *)
Definition bridging_header_h : string := "SherpaOnnx-Bridging-Header.h".

(** The eleven lines of [src/SherpaOnnx-Bridging-Header.h], verbatim. *)
Definition bridging_header_text : list string :=
  [ "// SherpaOnnx-Bridging-Header.h";
    "// Bridging header for sherpa-onnx C API in Dictum";
    "//";
    "// This header imports the C API functions so they can be used from Swift";
    "";
    "#ifndef SHERPAONNX_BRIDGING_HEADER_H_";
    "#define SHERPAONNX_BRIDGING_HEADER_H_";
    "";
    "#import " ++ Lexer.quoted "sherpa-onnx/c-api/c-api.h";
    "";
    "#endif  // SHERPAONNX_BRIDGING_HEADER_H_" ].

(** The file as the preprocessor sees it. *)
Definition bridging_header : list line := Lexer.parse_line <$> bridging_header_text.

(** ** Preprocessor state *)

(** What the preprocessor carries through a translation unit: the macro
    table, the headers it has entered, the headers marked by [#import],
    and the lines it has emitted, each with the file it came from and
    as the tokens that macro expansion left of it. *)
Record pp_state : Type := PPState {
  macros : gmap string string;
  entered : gset string;
  once : gset string;
  emitted : list (string * list string)
}.

Definition initial_state : pp_state := PPState ∅ ∅ ∅ [].

Definition defined (m : string) (st : pp_state) : bool :=
  bool_decide (is_Some (macros st !! m)).

Definition define (m body : string) (st : pp_state) : pp_state :=
  PPState (<[m := body]> (macros st)) (entered st) (once st) (emitted st).

Definition undef (m : string) (st : pp_state) : pp_state :=
  PPState (delete m (macros st)) (entered st) (once st) (emitted st).

Definition emit (origin : string) (ws : list string) (st : pp_state) : pp_state :=
  PPState (macros st) (entered st) (once st) (emitted st ++ [(origin, ws)]).

Definition mark_entered (p : string) (st : pp_state) : pp_state :=
  PPState (macros st) ({[p]} ∪ entered st) (once st) (emitted st).

Definition mark_once (p : string) (st : pp_state) : pp_state :=
  PPState (macros st) (entered st) ({[p]} ∪ once st) (emitted st).

(** ** Outcomes *)

Inductive error : Type :=
  | FileNotFound (path : string)
  | UserError (msg : string)
  | UnknownDirective (name : string)
  | ElseWithoutIf
  | ElseAfterElse
  | EndifWithoutIf
  | UnterminatedConditional.

(** A result, an error raised in the file [origin], or an inclusion nested
    deeper than the depth that was allowed. *)
Inductive outcome (A : Type) : Type :=
  | Ok (a : A)
  | Err (origin : string) (e : error)
  | TooDeep.

Arguments Ok {A} a.
Arguments Err {A} origin e.
Arguments TooDeep {A}.

Definition bind {A B : Type} (o : outcome A) (k : A → outcome B) : outcome B :=
  match o with
  | Ok a => k a
  | Err origin e => Err origin e
  | TooDeep => TooDeep
  end.

Definition outcome_map {A B : Type} (f : A → B) (o : outcome A) : outcome B :=
  bind o (λ a, Ok (f a)).

(** ** Conditionals *)

(** An open [#ifdef]/[#ifndef]: whether the lines of its current branch
    are processed, and whether its [#else] has been seen. *)
Record group : Type := Group { live : bool; in_else : bool }.

Definition active (cs : list group) : bool := forallb live cs.

(** ** Processing the lines of one file *)

Section Lines.

(** How an inclusion met in file [from] is carried out: [enter from
    is_import path st]. *)
Variable enter : string → bool → string → pp_state → outcome pp_state.

(** The file whose lines are processed. *)
Variable self : string.

Definition directive (l : line) (cs : list group) (st : pp_state)
    : outcome (list group * pp_state) :=
  match l with
  | Blank | Comment _ => Ok (cs, st)
  | Ifdef m => Ok (Group (active cs && defined m st) false :: cs, st)
  | Ifndef m => Ok (Group (active cs && negb (defined m st)) false :: cs, st)
  | Else =>
      match cs with
      | [] => Err self ElseWithoutIf
      | g :: outer =>
          if in_else g then Err self ElseAfterElse
          else Ok (Group (negb (live g) && active outer) true :: outer, st)
      end
  | Endif =>
      match cs with
      | [] => Err self EndifWithoutIf
      | _ :: outer => Ok (outer, st)
      end
  | Define m body => Ok (cs, if active cs then define m body st else st)
  | Undef m => Ok (cs, if active cs then undef m st else st)
  | Include p =>
      if active cs then bind (enter self false p st) (λ st', Ok (cs, st'))
      else Ok (cs, st)
  | Import p =>
      if active cs then bind (enter self true p st) (λ st', Ok (cs, st'))
      else Ok (cs, st)
  | ErrorDirective msg =>
      if active cs then Err self (UserError msg) else Ok (cs, st)
  | BadDirective name =>
      if active cs then Err self (UnknownDirective name) else Ok (cs, st)
  | Pragma arg =>
      Ok (cs, if active cs && String.eqb arg "once" then mark_once self st else st)
  | Text t =>
      Ok (cs, if active cs then emit self (expand_line (macros st) t) st else st)
  end.

Fixpoint process_lines (ls : list line) (cs : list group) (st : pp_state)
    : outcome pp_state :=
  match ls with
  | [] =>
      match cs with
      | [] => Ok st
      | _ :: _ => Err self UnterminatedConditional
      end
  | l :: ls' =>
      match directive l cs st with
      | Ok (cs', st') => process_lines ls' cs' st'
      | Err origin e => Err origin e
      | TooDeep => TooDeep
      end
  end.

End Lines.

(** ** Inclusion *)

(** [#include] skips a header that was marked by [#import]; [#import]
    skips a header that was entered before, by either directive. *)
Definition should_enter (is_import : bool) (p : string) (st : pp_state) : bool :=
  if is_import then bool_decide (p ∉ entered st) else bool_decide (p ∉ once st).

(** The inclusion of header [p], met in file [from], with [depth] further
    levels of nesting allowed.  The header search environment [fs] gives
    the lines of every header that can be found. *)
Fixpoint enter_file (fs : gmap string (list line)) (depth : nat)
    (from : string) (is_import : bool) (p : string) (st : pp_state)
    : outcome pp_state :=
  match fs !! p with
  | None => Err from (FileNotFound p)
  | Some f =>
      let st1 := if is_import then mark_once p st else st in
      if should_enter is_import p st then
        match depth with
        | 0 => TooDeep
        | S d => process_lines (enter_file fs d) p f [] (mark_entered p st1)
        end
      else Ok st1
  end.

(** A file processed as the main file of a translation unit. *)
Definition preprocess (fs : gmap string (list line)) (depth : nat)
    (self : string) (ls : list line) (st : pp_state) : outcome pp_state :=
  process_lines (enter_file fs depth) self ls [] st.

(** The bridging header processed as the main file. *)
Definition process_bridging_header (fs : gmap string (list line)) (depth : nat)
    (st : pp_state) : outcome pp_state :=
  preprocess fs depth bridging_header_h bridging_header st.

(** A translation unit that includes the bridging header [n] times. *)
Definition includes_bridging_header (n : nat) : list line :=
  replicate n (Include bridging_header_h).

(** ** Notions the statements use *)

(** The state with the guard macro defined, as line 7 leaves it. *)
Definition with_guard (st : pp_state) : pp_state :=
  define SHERPAONNX_BRIDGING_HEADER_H_ "" st.

(** The sets of entered and imported headers only grow, and emitted text
    is only appended to. *)
Definition grows (st st' : pp_state) : Prop :=
  entered st ⊆ entered st' ∧ once st ⊆ once st' ∧ emitted st `prefix_of` emitted st'.

(** A state in which a further [#include] of the bridging header does
    nothing. *)
Definition settled (st : pp_state) : Prop :=
  bridging_header_h ∈ once st ∨
  (defined SHERPAONNX_BRIDGING_HEADER_H_ st = true ∧ bridging_header_h ∈ entered st).

(** A state in which a further [#include] of the bridging header emits
    nothing: the header was imported, or it was entered and either its
    guard is defined or the C API header was entered too. *)
Definition visited (fs : gmap string (list line)) (st : pp_state) : Prop :=
  bridging_header_h ∈ once st ∨
  (bridging_header_h ∈ entered st ∧
   (defined SHERPAONNX_BRIDGING_HEADER_H_ st = true ∨
    (c_api_h ∈ entered st ∧ is_Some (fs !! c_api_h)))).

(** A line that neither names the guard macro nor includes the bridging
    header. *)
Definition ignores_bridging_header (l : line) : bool :=
  match l with
  | Ifdef m | Ifndef m | Undef m =>
      negb (String.eqb m SHERPAONNX_BRIDGING_HEADER_H_)
  | Define m body =>
      negb (String.eqb m SHERPAONNX_BRIDGING_HEADER_H_) &&
      negb (names SHERPAONNX_BRIDGING_HEADER_H_ body)
  | Include p | Import p => negb (String.eqb p bridging_header_h)
  | Text t => negb (names SHERPAONNX_BRIDGING_HEADER_H_ t)
  | _ => true
  end.

(** No macro of the state has the guard macro in its body. *)
Definition guard_free (st : pp_state) : Prop :=
  ∀ m body, macros st !! m = Some body →
    names SHERPAONNX_BRIDGING_HEADER_H_ body = false.

(** What an inclusion does to a state whose macros do not name the
    guard: the same with the guard defined and without, and it leaves
    such a state. *)
Definition guard_blind (run : pp_state → outcome pp_state) : Prop :=
  ∀ s, guard_free s →
    run (with_guard s) = outcome_map with_guard (run s) ∧
    ∀ s', run s = Ok s' → guard_free s'.

(** No declaration of [decls] names the guard macro. *)
Definition guard_free_declarations (decls : list string) : bool :=
  forallb (λ t, negb (names SHERPAONNX_BRIDGING_HEADER_H_ t)) decls.

(** Every header of the environment, the bridging header apart, ignores
    the bridging header. *)
Definition oblivious (fs : gmap string (list line)) : Prop :=
  ∀ p f, fs !! p = Some f → p ≠ bridging_header_h →
    forallb ignores_bridging_header f = true.

(** No header of the environment undefines macro [m]. *)
Definition never_undefined (fs : gmap string (list line)) (m : string) : Prop :=
  ∀ p f, fs !! p = Some f → Undef m ∉ f.

(** The header a line includes, if it includes one. *)
Definition inclusion_target (l : line) : option string :=
  match l with
  | Include p | Import p => Some p
  | _ => None
  end.

(** Header [p] has a line that includes header [q]. *)
Definition includes (fs : gmap string (list line)) (p q : string) : Prop :=
  ∃ f l, fs !! p = Some f ∧ l ∈ f ∧ inclusion_target l = Some q.

(** Header [q] is header [p], or [p] includes it, directly or through
    other headers. *)
Definition reaches (fs : gmap string (list line)) : relation string :=
  rtc (includes fs).

(** Every line of [new] is a text line of a header that [p] reaches,
    tagged with that header's name and macro-expanded. *)
Definition comes_from (fs : gmap string (list line)) (p : string)
    (new : list (string * list string)) : Prop :=
  ∀ o ws, (o, ws) ∈ new →
    reaches fs p o ∧
    ∃ f t M, fs !! o = Some f ∧ Text t ∈ f ∧ ws = expand_line M t.

(** Line [l] of header [p] includes nothing, or a header of lower rank. *)
Definition descends (rank : string → nat) (p : string) (l : line) : bool :=
  match inclusion_target l with
  | Some q => Nat.ltb (rank q) (rank p)
  | None => true
  end.

(** Along every inclusion written in a header other than the bridging
    header the rank goes down: the environment has no inclusion cycle
    that avoids the bridging header. *)
Definition acyclic_apart_from_bridging_header
    (fs : gmap string (list line)) (rank : string → nat) : Prop :=
  ∀ p f, fs !! p = Some f →
    f = bridging_header ∨ forallb (descends rank p) f = true.

Definition is_code (l : line) : bool :=
  match l with Blank | Comment _ => false | _ => true end.

Definition code_lines (f : list line) : list line := List.filter is_code f.

Definition is_ifndef (l : line) : bool := match l with Ifndef _ => true | _ => false end.

Definition is_define (l : line) : bool := match l with Define _ _ => true | _ => false end.

Definition is_import (l : line) : bool := match l with Import _ => true | _ => false end.

Definition is_endif (l : line) : bool := match l with Endif => true | _ => false end.

Definition count_lines (p : line → bool) (f : list line) : nat :=
  List.length (List.filter p f).

(** ** The environment the specification describes *)

(** Modelled from the spec: the C API header [sherpa-onnx/c-api/c-api.h]
    is not part of the repository.  The specification describes it as
    the external library's public C header, which declares the library's
    functions, types and constants; here it is a header of declarations,
    one line of text each. *)
Definition c_api_header (decls : list string) : list line := Text <$> decls.

(** The C API header together with the bridging header. *)
Definition c_api_environment (decls : list string) : gmap string (list line) :=
  <[ c_api_h := c_api_header decls ]> {[ bridging_header_h := bridging_header ]}.

(** ** Sample environments *)

(** The C API header with a guard of its own, a system header it
    includes, and the bridging header itself. *)
Definition sample_c_api : list line :=
  [ Ifndef "SHERPA_ONNX_C_API_C_API_H_";
    Define "SHERPA_ONNX_C_API_C_API_H_" "";
    Include "stdint.h";
    Define "SHERPA_ONNX_API" "";
    Text "typedef struct SherpaOnnxOnlineRecognizer SherpaOnnxOnlineRecognizer;";
    Text "SHERPA_ONNX_API void SherpaOnnxDestroyOnlineRecognizer(const SherpaOnnxOnlineRecognizer *r);";
    Endif ].

Definition sample_fs : gmap string (list line) :=
  <[ c_api_h := sample_c_api ]>
  (<[ "stdint.h" := [Pragma "once"; Text "typedef int int32_t;"] ]>
  {[ bridging_header_h := bridging_header ]}).

(** The C API header including the bridging header back. *)
Definition reentrant_c_api : list line :=
  [ Ifndef "SHERPA_ONNX_C_API_C_API_H_";
    Define "SHERPA_ONNX_C_API_C_API_H_" "";
    Include "stdint.h";
    Include bridging_header_h;
    Text "typedef struct SherpaOnnxWave SherpaOnnxWave;";
    Endif ].

Definition reentrant_fs : gmap string (list line) :=
  <[ c_api_h := reentrant_c_api ]> sample_fs.

Definition sample_rank (p : string) : nat :=
  if String.eqb p c_api_h then 2
  else if String.eqb p bridging_header_h then 1 else 0.

(** A C API header that refuses to be compiled. *)
Definition failing_fs : gmap string (list line) :=
  <[ c_api_h := [ErrorDirective "unsupported platform"] ]> sample_fs.

(** A state in which the translation unit has defined a macro that the
    declarations of the library use. *)
Definition sample_state : pp_state :=
  define "SHERPA_ONNX_EXPORT" "extern" initial_state.

(** A C API header whose declarations go through two macros, the inner
    one left to the translation unit. *)
Definition exporting_c_api : list line :=
  [ Ifndef "SHERPA_ONNX_C_API_C_API_H_";
    Define "SHERPA_ONNX_C_API_C_API_H_" "";
    Include "stdint.h";
    Define "SHERPA_ONNX_API" "SHERPA_ONNX_EXPORT";
    Text "SHERPA_ONNX_API int32_t SherpaOnnxFileExists(const char *filename);";
    Endif ].

Definition exporting_fs : gmap string (list line) :=
  <[ c_api_h := exporting_c_api ]> sample_fs.

(** A translation unit's main file. *)
Definition main_m : string := "main.m".

(** ** Notions of the further properties *)

(** The lines [decls] as emitted from header [origin] while the macros
    [M] are defined, in order. *)
Definition emitted_from (origin : string) (M : gmap string string)
    (decls : list string) : list (string * list string) :=
  (λ t, (origin, expand_line M t)) <$> decls.

(** The state after the C API header of the described environment was
    imported through the bridging header for the first time: its
    declarations are emitted as the macros of the incoming state and the
    guard expand them. *)
Definition after_first_import (decls : list string) (st : pp_state) : pp_state :=
  PPState (<[SHERPAONNX_BRIDGING_HEADER_H_ := ""]> (macros st))
          ({[c_api_h]} ∪ entered st)
          ({[c_api_h]} ∪ once st)
          (emitted st ++
           emitted_from c_api_h (<[SHERPAONNX_BRIDGING_HEADER_H_ := ""]> (macros st)) decls).

(** An environment that holds the bridging header and nothing else. *)
Definition missing_c_api_fs : gmap string (list line) :=
  {[ bridging_header_h := bridging_header ]}.

Definition two_declarations : list string :=
  [ "typedef struct SherpaOnnxWave SherpaOnnxWave;";
    "SHERPA_ONNX_EXPORT void SherpaOnnxFreeWave(const SherpaOnnxWave *wave);" ].

(** * Properties of the preprocessor *)

Arguments enter_file : simpl never.

(** Goes through the members of a list that is given in full. *)
Ltac each_line H :=
  repeat (apply elem_of_cons in H as [H|H];
          [by (subst; simpl; intros; simplify_eq)|]);
  by apply elem_of_nil in H.

(** Nothing new was emitted. *)
Ltac emitted_nothing :=
  exists []; split; [by rewrite app_nil_r|];
  let o := fresh "o" in let t := fresh "t" in let Hin := fresh "Hin" in
  intros o t Hin; by apply elem_of_nil in Hin.

Lemma bridging_header_lines :
  bridging_header =
  [ Comment " SherpaOnnx-Bridging-Header.h";
    Comment " Bridging header for sherpa-onnx C API in Dictum";
    Comment "";
    Comment " This header imports the C API functions so they can be used from Swift";
    Blank;
    Ifndef SHERPAONNX_BRIDGING_HEADER_H_;
    Define SHERPAONNX_BRIDGING_HEADER_H_ "";
    Blank;
    Import c_api_h;
    Blank;
    Endif ].
Proof. vm_compute. reflexivity. Qed.

Lemma c_api_h_not_bridging_header_h : c_api_h ≠ bridging_header_h.
Proof. done. Qed.

Lemma process_lines_cons enter self l ls cs st :
  process_lines enter self (l :: ls) cs st =
  bind (directive enter self l cs st)
       (λ r, process_lines enter self ls r.1 r.2).
Proof. simpl. by destruct (directive enter self l cs st) as [[??]| |]. Qed.

(** The whole behaviour of the bridging header, whatever carries out its
    inclusion: nothing when the guard is defined, otherwise the guard is
    defined and the C API header is imported. *)
Lemma process_lines_bridging_header enter self st :
  process_lines enter self bridging_header [] st =
  if defined SHERPAONNX_BRIDGING_HEADER_H_ st then Ok st
  else enter self true c_api_h (with_guard st).
Proof.
  rewrite bridging_header_lines. cbn -[SHERPAONNX_BRIDGING_HEADER_H_ c_api_h].
  destruct (defined _ st); cbn -[SHERPAONNX_BRIDGING_HEADER_H_ c_api_h]; [done|].
  by destruct (enter _ _ _ _).
Qed.

Lemma process_bridging_header_eq fs depth st :
  process_bridging_header fs depth st =
  if defined SHERPAONNX_BRIDGING_HEADER_H_ st then Ok st
  else enter_file fs depth bridging_header_h true c_api_h (with_guard st).
Proof. apply process_lines_bridging_header. Qed.

Lemma enter_file_unfold fs depth from is_import p st :
  enter_file fs depth from is_import p st =
  match fs !! p with
  | None => Err from (FileNotFound p)
  | Some f =>
      let st1 := if is_import then mark_once p st else st in
      if should_enter is_import p st then
        match depth with
        | 0 => TooDeep
        | S d => process_lines (enter_file fs d) p f [] (mark_entered p st1)
        end
      else Ok st1
  end.
Proof. by destruct depth. Qed.

Lemma defined_with_guard_eq st :
  defined SHERPAONNX_BRIDGING_HEADER_H_ (with_guard st) = true.
Proof.
  unfold defined, with_guard, define. simpl. rewrite lookup_insert_eq.
  apply bool_decide_eq_true. eauto.
Qed.

Lemma mark_entered_again p st : p ∈ entered st → mark_entered p st = st.
Proof.
  intros Hp. destruct st as [m en on em]. unfold mark_entered. simpl in *.
  f_equal. by apply subseteq_union_1_L, singleton_subseteq_l.
Qed.

Lemma mark_entered_in p st : p ∈ entered (mark_entered p st).
Proof. simpl. apply elem_of_union_l. by apply elem_of_singleton. Qed.

(** ** Macro expansion *)

Lemma expand_cons_other fuel M s r :
  expand fuel M (Other s :: r) = s :: expand fuel M r.
Proof. by destruct fuel. Qed.

Lemma expand_cons_name fuel M x r :
  expand fuel M (Name x :: r) =
  (match M !! x with
   | Some body =>
       match fuel with
       | 0 => [x]
       | S f => expand f (delete x M) (tokenize body)
       end
   | None => [x]
   end ++ expand fuel M r)%list.
Proof. by destruct fuel. Qed.

Lemma expand_nil fuel M : expand fuel M [] = [].
Proof. by destruct fuel. Qed.

(** With no macro defined nothing is replaced, whatever the fuel. *)
Lemma expand_empty f1 f2 ts : expand f1 ∅ ts = expand f2 ∅ ts.
Proof.
  induction ts as [|[x|s] r IH].
  - by rewrite !expand_nil.
  - rewrite !expand_cons_name, !lookup_empty. by rewrite IH.
  - rewrite !expand_cons_other. by rewrite IH.
Qed.

(** Fuel beyond the size of the table changes nothing. *)
Lemma expand_fuel f1 f2 M ts :
  (size M ≤ f1)%nat → (size M ≤ f2)%nat → expand f1 M ts = expand f2 M ts.
Proof.
  revert f2 M ts. induction f1 as [|f1 IH]; intros f2 M ts H1 H2.
  { assert (M = ∅) as -> by (apply map_size_empty_inv; lia). apply expand_empty. }
  destruct f2 as [|f2].
  { assert (M = ∅) as -> by (apply map_size_empty_inv; lia). apply expand_empty. }
  induction ts as [|[x|s] r IHr].
  - by rewrite !expand_nil.
  - rewrite !expand_cons_name, IHr. destruct (M !! x) as [body|] eqn:Hx; [|done].
    f_equal. apply IH; rewrite map_size_delete_Some by eauto; lia.
  - rewrite !expand_cons_other. by rewrite IHr.
Qed.

(** A macro that neither the tokens nor any body of the table names
    makes no difference to the expansion. *)
Lemma expand_insert_unnamed fuel M g b ts :
  names_tokens g ts = false →
  (∀ m body, M !! m = Some body → names g body = false) →
  expand fuel (<[g := b]> M) ts = expand fuel M ts.
Proof.
  revert M ts. induction fuel as [|f IH]; intros M ts Hts HM.
  - induction ts as [|[x|s] r IHr].
    + done.
    + simpl in Hts. apply orb_false_iff in Hts as [Hx Hr].
      rewrite !expand_cons_name, IHr by done.
      rewrite lookup_insert_ne; [done|]. intros ->. by rewrite String.eqb_refl in Hx.
    + simpl in Hts. rewrite !expand_cons_other. by rewrite IHr.
  - induction ts as [|[x|s] r IHr].
    + done.
    + simpl in Hts. apply orb_false_iff in Hts as [Hx Hr].
      assert (g ≠ x) as Hne by (intros ->; by rewrite String.eqb_refl in Hx).
      rewrite !expand_cons_name, IHr by done.
      rewrite lookup_insert_ne by done.
      destruct (M !! x) as [body|] eqn:Hbody; [|done].
      rewrite delete_insert_ne by done. f_equal. apply IH.
      * by eapply HM.
      * intros m body' [_ Hm]%lookup_delete_Some. by eapply HM.
    + simpl in Hts. rewrite !expand_cons_other. by rewrite IHr.
Qed.

Lemma expand_line_insert_unnamed M g b t :
  names g t = false →
  (∀ m body, M !! m = Some body → names g body = false) →
  expand_line (<[g := b]> M) t = expand_line M t.
Proof.
  intros Ht HM. unfold expand_line.
  rewrite expand_insert_unnamed by done.
  apply expand_fuel; [|done]. rewrite map_size_insert.
  destruct (M !! g); simpl; lia.
Qed.

(** ** A relation kept by every step *)

(** A reflexive and transitive relation between states that every state
    update keeps, possibly under a condition [L] on the line that causes
    the update, is kept by the processing of any file whose lines, and
    the lines of whatever it includes, satisfy [L]. *)
Section Preservation.

Variable fs : gmap string (list line).
Variable Q : pp_state → pp_state → Prop.
Variable L : string → line → Prop.

Hypothesis Q_refl : ∀ st, Q st st.
Hypothesis Q_trans : ∀ a b c, Q a b → Q b c → Q a c.
Hypothesis Q_define : ∀ self m b st, L self (Define m b) → Q st (define m b st).
Hypothesis Q_undef : ∀ self m st, L self (Undef m) → Q st (undef m st).
Hypothesis Q_emit :
  ∀ self t st, L self (Text t) → Q st (emit self (expand_line (macros st) t) st).
Hypothesis Q_entered : ∀ p st, Q st (mark_entered p st).
Hypothesis Q_once : ∀ p st, Q st (mark_once p st).
Hypothesis fs_L : ∀ p f, fs !! p = Some f → Forall (L p) f.

Lemma directive_preserves enter self l cs st cs' st' :
  (∀ from imp p s s', enter from imp p s = Ok s' → Q s s') →
  L self l →
  directive enter self l cs st = Ok (cs', st') → Q st st'.
Proof.
  intros Henter Hl Hd. destruct l; simpl in Hd;
    repeat case_match; simplify_eq; eauto.
  - destruct (enter self false path st) eqn:E; simplify_eq/=; eauto.
  - destruct (enter self true path st) eqn:E; simplify_eq/=; eauto.
Qed.

Lemma process_lines_preserves enter self ls cs st st' :
  (∀ from imp p s s', enter from imp p s = Ok s' → Q s s') →
  Forall (L self) ls →
  process_lines enter self ls cs st = Ok st' → Q st st'.
Proof.
  intros Henter Hls. revert cs st. induction Hls as [|l ls Hl Hls IH]; intros cs st.
  - simpl. destruct cs; [|done]. intros [= ->]. apply Q_refl.
  - rewrite process_lines_cons.
    destruct (directive enter self l cs st) as [[cs1 st1]| |] eqn:E; [|done..].
    simpl. intros H. eapply Q_trans; [|by eapply IH].
    by eapply directive_preserves.
Qed.

Lemma enter_file_preserves depth from imp p st st' :
  enter_file fs depth from imp p st = Ok st' → Q st st'.
Proof.
  revert from imp p st st'. induction depth as [|d IH]; intros from imp p st st';
    rewrite enter_file_unfold; destruct (fs !! p) as [f|] eqn:Ef; try done;
    cbv zeta; destruct (should_enter imp p st); try done.
  - intros [= <-]. destruct imp; eauto.
  - intros H. eapply process_lines_preserves in H; eauto.
    eapply Q_trans; [|eapply Q_trans; [|exact H]]; [|apply Q_entered].
    destruct imp; eauto.
  - intros [= <-]. destruct imp; eauto.
Qed.

Lemma preprocess_preserves depth self ls st st' :
  Forall (L self) ls →
  preprocess fs depth self ls st = Ok st' → Q st st'.
Proof.
  intros Hls. apply process_lines_preserves; [|done].
  intros *. apply enter_file_preserves.
Qed.

End Preservation.

(** ** What processing never takes back *)

Lemma enter_file_grows fs depth from imp p st st' :
  enter_file fs depth from imp p st = Ok st' → grows st st'.
Proof.
  apply (enter_file_preserves fs grows (λ _ _, True)); unfold grows.
  - done.
  - intros a b c (?&?&?) (?&?&?). split_and!; by etrans.
  - done.
  - done.
  - intros self t s _. simpl. split_and!; [done..|]. by apply prefix_app_r.
  - intros q s. simpl. split_and!; [|done..]. apply union_subseteq_r.
  - intros q s. simpl. split_and!; [done| |done]. apply union_subseteq_r.
  - intros q f _. by apply Forall_true.
Qed.

Lemma enter_file_entered fs depth from imp p st st' q :
  enter_file fs depth from imp p st = Ok st' → q ∈ entered st → q ∈ entered st'.
Proof. intros (He & _)%enter_file_grows ?. by apply He. Qed.

Lemma grows_refl st : grows st st.
Proof. by unfold grows. Qed.

Lemma grows_trans a b c : grows a b → grows b c → grows a c.
Proof. intros (?&?&?) (?&?&?). unfold grows. split_and!; by etrans. Qed.

Lemma process_lines_grows fs d self ls cs st st' :
  process_lines (enter_file fs d) self ls cs st = Ok st' → grows st st'.
Proof.
  apply (process_lines_preserves grows (λ _ _, True)).
  - apply grows_refl.
  - apply grows_trans.
  - done.
  - done.
  - intros s t s0 _. unfold grows. simpl. split_and!; [done..|]. by apply prefix_app_r.
  - intros q s. unfold grows. simpl. split_and!; [done| |done]. apply union_subseteq_r.
  - intros *. apply enter_file_grows.
  - by apply Forall_true.
Qed.

(** A header that was imported with success has been entered. *)
Lemma enter_file_import_entered fs depth from p st st' :
  enter_file fs depth from true p st = Ok st' →
  p ∈ entered st' ∧ is_Some (fs !! p).
Proof.
  rewrite enter_file_unfold. destruct (fs !! p) as [f|]; [|done].
  cbv zeta. unfold should_enter. intros H. split; [|eauto].
  case_bool_decide as Hin.
  - destruct depth as [|d]; [done|].
    apply process_lines_grows in H as (He & _). apply He, mark_entered_in.
  - by injection H as <-.
Qed.

(** A macro that no header undefines stays defined. *)
Lemma enter_file_keeps_defined fs m depth from imp p st st' :
  (∀ q f, fs !! q = Some f → Undef m ∉ f) →
  enter_file fs depth from imp p st = Ok st' →
  defined m st = true → defined m st' = true.
Proof.
  intros Hfs.
  apply (enter_file_preserves fs (λ s s', defined m s = true → defined m s' = true)
           (λ _ l, l ≠ Undef m)); try (simpl; by auto).
  - intros self m' b s _. unfold defined, define. simpl.
    rewrite !bool_decide_eq_true. intros Hm.
    destruct (decide (m' = m)) as [->|]; [rewrite lookup_insert_eq; eauto|].
    by rewrite lookup_insert_ne.
  - intros self m' s Hne. unfold defined, undef. simpl.
    rewrite !bool_decide_eq_true. intros Hm.
    rewrite lookup_delete_ne; [done|]. congruence.
  - intros q f Hq. apply Forall_forall. intros l Hl ->. by eapply Hfs.
Qed.

(** Where emitted lines come from. *)
Lemma comes_from_app fs p new1 new2 :
  comes_from fs p new1 → comes_from fs p new2 → comes_from fs p (new1 ++ new2).
Proof. intros H1 H2 o ws [?|?]%elem_of_app; eauto. Qed.

Lemma comes_from_includes fs p q new :
  includes fs p q → comes_from fs q new → comes_from fs p new.
Proof.
  intros Hpq Hq o ws Hin. destruct (Hq o ws Hin) as (Hreach & Hline).
  split; [|done]. by eapply rtc_l.
Qed.

Lemma directive_origin fs enter self f l cs st cs' st' :
  fs !! self = Some f →
  l ∈ f →
  (∀ imp q s s', includes fs self q → enter self imp q s = Ok s' →
     ∃ new, emitted s' = (emitted s ++ new)%list ∧ comes_from fs q new) →
  directive enter self l cs st = Ok (cs', st') →
  ∃ new, emitted st' = (emitted st ++ new)%list ∧ comes_from fs self new.
Proof.
  intros Hf Hl He Hd.
  assert (∀ imp q, inclusion_target l = Some q →
            bind (enter self imp q st) (λ s', Ok (cs, s')) = Ok (cs', st') →
            ∃ new, emitted st' = (emitted st ++ new)%list ∧ comes_from fs self new)
    as Hinclude.
  { intros imp q Hq H. destruct (enter self imp q st) as [s1| |] eqn:E; [|done..].
    injection H as _ <-.
    assert (includes fs self q) as Hpq by (by exists f, l).
    destruct (He imp q st s1 Hpq E) as (new & Hnew & Hfrom).
    exists new. split; [done|]. by eapply comes_from_includes. }
  destruct l; simpl in Hd; repeat case_match; simplify_eq;
    try (by eapply Hinclude); try emitted_nothing.
  exists [(self, expand_line (macros st) t)]. split; [done|].
  intros o ws [= -> ->]%list_elem_of_singleton. split; [apply rtc_refl|].
  by exists f, t, (macros st).
Qed.

Lemma process_lines_origin fs enter self f ls cs st st' :
  fs !! self = Some f →
  (∀ l, l ∈ ls → l ∈ f) →
  (∀ imp q s s', includes fs self q → enter self imp q s = Ok s' →
     ∃ new, emitted s' = (emitted s ++ new)%list ∧ comes_from fs q new) →
  process_lines enter self ls cs st = Ok st' →
  ∃ new, emitted st' = (emitted st ++ new)%list ∧ comes_from fs self new.
Proof.
  intros Hf Hls He. revert cs st. induction ls as [|l ls IH]; intros cs st.
  - simpl. destruct cs; [|done]. intros [= ->]. emitted_nothing.
  - rewrite process_lines_cons.
    destruct (directive enter self l cs st) as [[cs1 st1]| |] eqn:E; [|done..].
    simpl. intros H.
    destruct (directive_origin fs enter self f l cs st cs1 st1) as (n1 & E1 & H1);
      [done|apply Hls; by left|done|done|].
    destruct (IH (λ l' Hl', Hls l' (list_elem_of_further _ _ _ Hl')) cs1 st1 H)
      as (n2 & E2 & H2).
    exists (n1 ++ n2)%list. split; [by rewrite E2, E1, app_assoc|].
    by apply comes_from_app.
Qed.

(** Every line emitted while header [p] is included is the expansion of
    a text line of [p] or of a header that [p] reaches. *)
Lemma enter_file_origin fs depth from imp p st st' :
  enter_file fs depth from imp p st = Ok st' →
  ∃ new, emitted st' = (emitted st ++ new)%list ∧ comes_from fs p new.
Proof.
  revert from imp p st st'. induction depth as [|d IH]; intros from imp p st st';
    rewrite enter_file_unfold; destruct (fs !! p) as [f|] eqn:Ef; try done;
    cbv zeta; destruct (should_enter imp p st); try done.
  - intros [= <-]. destruct imp; emitted_nothing.
  - intros H. eapply (process_lines_origin fs _ p f) in H; [|done|done|].
    + destruct H as (new & Hnew & Hfrom). exists new. split; [|done].
      rewrite Hnew. by destruct imp.
    + intros imp' q s s' _. apply IH.
  - intros [= <-]. destruct imp; emitted_nothing.
Qed.

(** ** The depth allowance does not change a result *)

Lemma directive_deeper enter enter' self l cs st :
  (∀ from imp p s, enter from imp p s ≠ TooDeep →
     enter' from imp p s = enter from imp p s) →
  directive enter self l cs st ≠ TooDeep →
  directive enter' self l cs st = directive enter self l cs st.
Proof.
  intros He. destruct l; simpl; try done.
  - destruct (active cs); [|done]. intros Hd. rewrite He; [done|].
    intros E. by rewrite E in Hd.
  - destruct (active cs); [|done]. intros Hd. rewrite He; [done|].
    intros E. by rewrite E in Hd.
Qed.

Lemma process_lines_deeper enter enter' self ls cs st :
  (∀ from imp p s, enter from imp p s ≠ TooDeep →
     enter' from imp p s = enter from imp p s) →
  process_lines enter self ls cs st ≠ TooDeep →
  process_lines enter' self ls cs st = process_lines enter self ls cs st.
Proof.
  intros He. revert cs st. induction ls as [|l ls IH]; intros cs st; [done|].
  rewrite !process_lines_cons. intros Hd.
  rewrite (directive_deeper enter enter'); [|done|].
  - destruct (directive enter self l cs st) as [[cs1 st1]| |] eqn:E; try done.
    simpl in *. by apply IH.
  - intros E. by rewrite E in Hd.
Qed.

Lemma enter_file_deeper fs d d' from imp p st :
  (d ≤ d')%nat →
  enter_file fs d from imp p st ≠ TooDeep →
  enter_file fs d' from imp p st = enter_file fs d from imp p st.
Proof.
  revert d' from imp p st. induction d as [|d IH]; intros d' from imp p st Hle;
    rewrite (enter_file_unfold fs d'), (enter_file_unfold fs _ from);
    destruct (fs !! p) as [f|]; try done; cbv zeta;
    destruct (should_enter imp p st); try done.
  destruct d' as [|d']; [lia|]. intros Hd.
  apply process_lines_deeper; [|done].
  intros. apply IH; [lia|done].
Qed.

Lemma preprocess_deeper fs d d' self ls st :
  (d ≤ d')%nat →
  preprocess fs d self ls st ≠ TooDeep →
  preprocess fs d' self ls st = preprocess fs d self ls st.
Proof.
  intros Hle. apply process_lines_deeper. intros. by apply enter_file_deeper.
Qed.

(** ** Including the bridging header from a translation unit *)

Section Inclusion.

Variable fs : gmap string (list line).
Hypothesis fs_bridging_header : fs !! bridging_header_h = Some bridging_header.

(** One [#include] of the bridging header. *)
Lemma include_bridging_header d from st :
  enter_file fs (S d) from false bridging_header_h st =
  if bool_decide (bridging_header_h ∉ once st) then
    if defined SHERPAONNX_BRIDGING_HEADER_H_ st
    then Ok (mark_entered bridging_header_h st)
    else enter_file fs d bridging_header_h true c_api_h
           (with_guard (mark_entered bridging_header_h st))
  else Ok st.
Proof.
  rewrite enter_file_unfold, fs_bridging_header. cbv zeta. unfold should_enter.
  case_bool_decide; [|done]. by rewrite process_lines_bridging_header.
Qed.

Lemma include_settled d from st :
  settled st → enter_file fs (S d) from false bridging_header_h st = Ok st.
Proof.
  intros Hs. rewrite include_bridging_header. case_bool_decide as Ho; [|done].
  destruct Hs as [?|[-> ?]]; [done|]. by rewrite mark_entered_again.
Qed.

Lemma includes_settled d self n st :
  settled st →
  preprocess fs (S d) self (includes_bridging_header n) st = Ok st.
Proof.
  intros Hs. unfold preprocess. induction n as [|n IH]; [done|].
  unfold includes_bridging_header. simpl replicate. rewrite process_lines_cons.
  simpl. by rewrite include_settled.
Qed.

Lemma include_once_eq d self st :
  preprocess fs (S d) self (includes_bridging_header 1) st =
  enter_file fs (S d) self false bridging_header_h st.
Proof.
  unfold preprocess, includes_bridging_header. simpl.
  by destruct (enter_file fs (S d) self false bridging_header_h st).
Qed.

Lemma includes_succ_eq d self n st :
  preprocess fs (S d) self (includes_bridging_header (S n)) st =
  bind (enter_file fs (S d) self false bridging_header_h st)
       (preprocess fs (S d) self (includes_bridging_header n)).
Proof.
  unfold preprocess, includes_bridging_header. simpl replicate.
  rewrite process_lines_cons. simpl.
  by destruct (enter_file fs (S d) self false bridging_header_h st).
Qed.

(** After a first [#include] that leaves the guard defined, the state
    is settled. *)
Lemma include_settles d from st st1 :
  enter_file fs (S d) from false bridging_header_h st = Ok st1 →
  defined SHERPAONNX_BRIDGING_HEADER_H_ st1 = true →
  settled st1.
Proof.
  rewrite include_bridging_header. case_bool_decide as Ho.
  - intros H Hdef. right. split; [done|].
    destruct (defined _ st).
    + injection H as <-. apply mark_entered_in.
    + eapply enter_file_entered; [exact H|]. apply mark_entered_in.
  - intros [= <-] _. by left.
Qed.

(** After a first [#include], whatever it leaves, the state is visited. *)
Lemma include_visits d from st st1 :
  enter_file fs (S d) from false bridging_header_h st = Ok st1 →
  visited fs st1.
Proof.
  rewrite include_bridging_header. case_bool_decide as Ho; [|intros [= <-]; by left].
  destruct (defined _ st) eqn:Hdef.
  - intros [= <-]. right. split; [apply mark_entered_in|]. by left.
  - intros H. right. split.
    + eapply enter_file_entered; [exact H|]. apply mark_entered_in.
    + right. by eapply enter_file_import_entered.
Qed.

(** In a visited state one more [#include] emits nothing. *)
Lemma include_visited d from st :
  visited fs st →
  ∃ st', enter_file fs (S d) from false bridging_header_h st = Ok st' ∧
         emitted st' = emitted st ∧ visited fs st'.
Proof.
  intros Hv. rewrite include_bridging_header. case_bool_decide as Ho.
  - destruct Hv as [?|[Hin Hv]]; [done|].
    rewrite (mark_entered_again _ _ Hin).
    destruct (defined _ st) eqn:Hdef.
    + exists st. split_and!; try done. right. split; [done|]. by left.
    + destruct Hv as [?|[Hapi [f Hf]]]; [congruence|].
      rewrite enter_file_unfold, Hf. cbv zeta. unfold should_enter.
      rewrite bool_decide_eq_false_2 by (simpl; eauto).
      eexists. split_and!; [done|done|]. right. split; [done|]. left.
      apply defined_with_guard_eq.
  - exists st. by split_and!.
Qed.

Lemma includes_visited d self n st :
  visited fs st →
  ∃ st', preprocess fs (S d) self (includes_bridging_header n) st = Ok st' ∧
         emitted st' = emitted st ∧ visited fs st'.
Proof.
  revert st. induction n as [|n IH]; intros st Hv.
  - exists st. by split_and!.
  - rewrite includes_succ_eq.
    destruct (include_visited d self st Hv) as (st1 & -> & He1 & Hv1). simpl.
    destruct (IH st1 Hv1) as (st2 & -> & He2 & Hv2).
    exists st2. split_and!; [done|congruence|done].
Qed.

End Inclusion.

(** ** Errors and where they are raised *)

Section ErrorOrigin.

Variable fs : gmap string (list line).
Hypothesis fs_bridging_header :
  ∀ g, fs !! bridging_header_h = Some g → g = bridging_header.
Hypothesis fs_c_api : is_Some (fs !! c_api_h).

Lemma directive_err_origin enter self l cs st o e :
  self ≠ bridging_header_h →
  (∀ imp p s o e, enter self imp p s = Err o e → o ≠ bridging_header_h) →
  directive enter self l cs st = Err o e → o ≠ bridging_header_h.
Proof.
  intros Hself He. destruct l; simpl; repeat case_match; try done;
    try (by intros [= <- _]).
  - destruct (enter self false path st) eqn:E; simpl; try done.
    intros [= <- <-]. by eapply He.
  - destruct (enter self true path st) eqn:E; simpl; try done.
    intros [= <- <-]. by eapply He.
Qed.

Lemma process_lines_err_origin enter self ls cs st o e :
  self ≠ bridging_header_h →
  (∀ imp p s o e, enter self imp p s = Err o e → o ≠ bridging_header_h) →
  process_lines enter self ls cs st = Err o e → o ≠ bridging_header_h.
Proof.
  intros Hself He. revert cs st. induction ls as [|l ls IH]; intros cs st.
  - simpl. destruct cs; [done|]. by intros [= <- _].
  - rewrite process_lines_cons.
    destruct (directive enter self l cs st) as [[cs1 st1]| |] eqn:E; simpl; try done.
    + apply IH.
    + intros [= <- <-]. by eapply directive_err_origin.
Qed.

(** An error that comes out of an inclusion is raised outside the
    bridging header, unless it is the includer's own failure to find
    the header. *)
Lemma enter_file_err_origin depth from imp p st o e :
  enter_file fs depth from imp p st = Err o e →
  o ≠ bridging_header_h ∨ (o = from ∧ e = FileNotFound p ∧ fs !! p = None).
Proof.
  revert from imp p st o e.
  induction depth as [|d IH]; intros from imp p st o e;
    rewrite enter_file_unfold; destruct (fs !! p) as [f|] eqn:Ef;
    try (intros [= <- <-]; by right); cbv zeta;
    destruct (should_enter imp p st); try done.
  intros H. left.
  destruct (decide (p = bridging_header_h)) as [->|Hp].
  - apply fs_bridging_header in Ef as ->.
    rewrite process_lines_bridging_header in H.
    destruct (defined _ _); [done|].
    apply IH in H as [?|(_ & _ & Hnone)]; [done|].
    destruct fs_c_api as [? Hsome]. congruence.
  - eapply process_lines_err_origin; [done| |exact H].
    intros imp' p' s o' e' H'. apply IH in H' as [?|(-> & _)]; done.
Qed.

End ErrorOrigin.

(** ** Headers that know nothing of the bridging header *)

Lemma defined_with_guard m st :
  m ≠ SHERPAONNX_BRIDGING_HEADER_H_ → defined m (with_guard st) = defined m st.
Proof.
  intros Hm. unfold defined, with_guard, define. simpl.
  by rewrite lookup_insert_ne.
Qed.

Lemma define_with_guard m b st :
  m ≠ SHERPAONNX_BRIDGING_HEADER_H_ →
  define m b (with_guard st) = with_guard (define m b st).
Proof.
  intros Hm. unfold with_guard, define. simpl. f_equal.
  by apply insert_insert_ne.
Qed.

Lemma undef_with_guard m st :
  m ≠ SHERPAONNX_BRIDGING_HEADER_H_ →
  undef m (with_guard st) = with_guard (undef m st).
Proof.
  intros Hm. unfold with_guard, define, undef. simpl. f_equal.
  by rewrite delete_insert_ne.
Qed.

Lemma negb_eqb_ne (a b : string) : negb (String.eqb a b) = true → a ≠ b.
Proof. intros H ->. by rewrite String.eqb_refl in H. Qed.

Lemma andb_negb_true (a b : bool) : negb a && negb b = true → a = false ∧ b = false.
Proof. by destruct a, b. Qed.

Lemma expand_line_with_guard st t :
  guard_free st →
  names SHERPAONNX_BRIDGING_HEADER_H_ t = false →
  expand_line (macros (with_guard st)) t = expand_line (macros st) t.
Proof. intros Hst Ht. by apply expand_line_insert_unnamed. Qed.

Lemma guard_free_define m body st :
  names SHERPAONNX_BRIDGING_HEADER_H_ body = false →
  guard_free st → guard_free (define m body st).
Proof.
  intros Hbody Hst m' body'. unfold define. simpl.
  intros [[_ <-]|[_ H]]%lookup_insert_Some; [done|]. by eapply Hst.
Qed.

Lemma guard_free_undef m st : guard_free st → guard_free (undef m st).
Proof.
  intros Hst m' body'. unfold undef. simpl.
  intros [_ H]%lookup_delete_Some. by eapply Hst.
Qed.

Section Oblivious.

Variable fs : gmap string (list line).
Hypothesis fs_oblivious : oblivious fs.

Lemma directive_with_guard enter self l cs st :
  (∀ imp p, p ≠ bridging_header_h → guard_blind (enter self imp p)) →
  ignores_bridging_header l = true →
  guard_free st →
  directive enter self l cs (with_guard st) =
    outcome_map (λ r, (r.1, with_guard r.2)) (directive enter self l cs st) ∧
  ∀ cs' st', directive enter self l cs st = Ok (cs', st') → guard_free st'.
Proof.
  intros He Hl Hst.
  assert (∀ imp p, p ≠ bridging_header_h →
    (if active cs then bind (enter self imp p (with_guard st)) (λ s', Ok (cs, s'))
     else Ok (cs, with_guard st)) =
    outcome_map (λ r, (r.1, with_guard r.2))
      (if active cs then bind (enter self imp p st) (λ s', Ok (cs, s'))
       else Ok (cs, st)) ∧
    ∀ cs' st',
      (if active cs then bind (enter self imp p st) (λ s', Ok (cs, s'))
       else Ok (cs, st)) = Ok (cs', st') → guard_free st') as Hinclude.
  { intros imp p Hp. destruct (He imp p Hp st Hst) as (Heq & Hfree).
    destruct (active cs); [|split; [done|by intros ?? [= _ <-]]].
    rewrite Heq. destruct (enter self imp p st) as [s1| |]; simpl; split; try done.
    intros ?? [= _ <-]. by apply Hfree. }
  destruct l; simpl in *;
    try (split; [done|by intros ?? [= _ <-]]).
  - apply negb_eqb_ne in Hl. rewrite defined_with_guard by done.
    split; [done|by intros ?? [= _ <-]].
  - apply negb_eqb_ne in Hl. rewrite defined_with_guard by done.
    split; [done|by intros ?? [= _ <-]].
  - split; [by repeat case_match|]. intros ??.
    repeat case_match; try done; by intros [= _ <-].
  - split; [by repeat case_match|]. intros ??.
    repeat case_match; try done; by intros [= _ <-].
  - apply andb_true_iff in Hl as [Hm Hbody]. apply negb_eqb_ne in Hm.
    apply negb_true_iff in Hbody.
    destruct (active cs); [|split; [done|by intros ?? [= _ <-]]].
    rewrite define_with_guard by done. split; [done|].
    intros ?? [= _ <-]. by apply guard_free_define.
  - apply negb_eqb_ne in Hl.
    destruct (active cs); [|split; [done|by intros ?? [= _ <-]]].
    rewrite undef_with_guard by done. split; [done|].
    intros ?? [= _ <-]. by apply guard_free_undef.
  - apply Hinclude. by apply negb_eqb_ne.
  - apply Hinclude. by apply negb_eqb_ne.
  - destruct (active cs); [done|]. split; [done|by intros ?? [= _ <-]].
  - destruct (active cs && _); split; try done; by intros ?? [= _ <-].
  - destruct (active cs); [done|]. split; [done|by intros ?? [= _ <-]].
  - apply negb_true_iff in Hl.
    destruct (active cs); [|split; [done|by intros ?? [= _ <-]]].
    rewrite expand_line_insert_unnamed by done. split; [done|].
    by intros ?? [= _ <-].
Qed.

Lemma process_lines_with_guard enter self ls cs st :
  (∀ imp p, p ≠ bridging_header_h → guard_blind (enter self imp p)) →
  forallb ignores_bridging_header ls = true →
  guard_free st →
  process_lines enter self ls cs (with_guard st) =
    outcome_map with_guard (process_lines enter self ls cs st) ∧
  ∀ st', process_lines enter self ls cs st = Ok st' → guard_free st'.
Proof.
  intros He. revert cs st. induction ls as [|l ls IH]; intros cs st Hls Hst.
  - simpl. destruct cs; split; try done. by intros ? [= <-].
  - simpl in Hls. apply andb_true_iff in Hls as [Hl Hls].
    destruct (directive_with_guard enter self l cs st He Hl Hst) as (Heq & Hfree).
    rewrite !process_lines_cons, Heq.
    destruct (directive enter self l cs st) as [[cs1 st1]| |]; simpl; try done.
    apply IH; [done|]. by eapply Hfree.
Qed.

(** Defining the guard before an inclusion or after it makes no
    difference. *)
Lemma enter_file_with_guard depth from imp p :
  p ≠ bridging_header_h → guard_blind (enter_file fs depth from imp p).
Proof.
  revert from imp p. induction depth as [|d IH]; intros from imp p Hp st Hst;
    rewrite !enter_file_unfold; destruct (fs !! p) as [f|] eqn:Ef; try done;
    cbv zeta; change (should_enter imp p (with_guard st)) with (should_enter imp p st);
    destruct (should_enter imp p st);
    try (split; [by destruct imp|intros ? [= <-]; by destruct imp]).
  replace (mark_entered p (if imp then mark_once p (with_guard st) else with_guard st))
    with (with_guard (mark_entered p (if imp then mark_once p st else st)))
    by (by destruct imp).
  apply process_lines_with_guard; [|by eapply fs_oblivious|by destruct imp].
  intros. by apply IH.
Qed.

End Oblivious.

(** ** Inclusion chains *)

Section Chains.

Variable fs : gmap string (list line).
Variable rank : string → nat.
Hypothesis fs_acyclic : acyclic_apart_from_bridging_header fs rank.

Lemma directive_entered enter self l cs st cs' st' q :
  (∀ from imp p s s', enter from imp p s = Ok s' → q ∈ entered s → q ∈ entered s') →
  directive enter self l cs st = Ok (cs', st') →
  q ∈ entered st → q ∈ entered st'.
Proof.
  intros He. destruct l; simpl; repeat case_match; try done;
    try (by intros [= <- <-]).
  - destruct (enter self false path st) eqn:E; simpl; try done.
    intros [= <- <-]. by eapply He.
  - destruct (enter self true path st) eqn:E; simpl; try done.
    intros [= <- <-]. by eapply He.
Qed.

Lemma process_lines_bounded n self ls cs st :
  (∀ from imp p s, (rank p < n)%nat → c_api_h ∈ entered s →
     enter_file fs n from imp p s ≠ TooDeep) →
  forallb (descends rank self) ls = true →
  (rank self ≤ n)%nat →
  c_api_h ∈ entered st →
  process_lines (enter_file fs n) self ls cs st ≠ TooDeep.
Proof.
  intros IHn. revert cs st. induction ls as [|l ls IH]; intros cs st Hls Hself Hst.
  - simpl. by destruct cs.
  - simpl in Hls. apply andb_true_iff in Hls as [Hl Hls].
    rewrite process_lines_cons.
    destruct (directive (enter_file fs n) self l cs st) as [[cs1 st1]| |] eqn:E;
      simpl; try done.
    + apply IH; try done.
      eapply directive_entered; [|exact E|done].
      intros *. apply enter_file_entered.
    + exfalso. destruct l; simpl in E; repeat case_match; try done.
      * destruct (enter_file fs n self false path st) eqn:E'; try done.
        unfold descends in Hl. simpl in Hl. apply Nat.ltb_lt in Hl.
        eapply IHn; [|done|exact E']. lia.
      * destruct (enter_file fs n self true path st) eqn:E'; try done.
        unfold descends in Hl. simpl in Hl. apply Nat.ltb_lt in Hl.
        eapply IHn; [|done|exact E']. lia.
Qed.

(** Once the C API header has been entered, or when it is the header
    being included, an inclusion needs no more depth than the rank of
    its header. *)
Lemma enter_file_bounded n from imp p st :
  (rank p < n)%nat →
  c_api_h ∈ entered st ∨ p = c_api_h →
  enter_file fs n from imp p st ≠ TooDeep.
Proof.
  revert from imp p st. induction n as [|n IH]; intros from imp p st Hp Hst; [lia|].
  rewrite enter_file_unfold. destruct (fs !! p) as [f|] eqn:Ef; [|done].
  cbv zeta. destruct (should_enter imp p st); [|done].
  assert (c_api_h ∈ entered (mark_entered p (if imp then mark_once p st else st))) as Hin.
  { destruct Hst as [?| ->]; [|apply mark_entered_in].
    destruct imp; simpl; by apply elem_of_union_r. }
  destruct (fs_acyclic p f Ef) as [->|Hf].
  - rewrite process_lines_bridging_header. destruct (defined _ _); [done|].
    rewrite enter_file_unfold. destruct (fs !! c_api_h); [|done].
    cbv zeta. unfold should_enter. by rewrite bool_decide_eq_false_2 by eauto.
  - apply process_lines_bounded; try done; [|lia].
    intros. apply IH; [done|by left].
Qed.

End Chains.

(** ** The environment the specification describes *)

Lemma c_api_environment_lookup decls p f :
  c_api_environment decls !! p = Some f →
  (p = c_api_h ∧ f = c_api_header decls) ∨
  (p = bridging_header_h ∧ f = bridging_header).
Proof.
  unfold c_api_environment. intros H.
  apply lookup_insert_Some in H as [[<- <-]|[_ H]]; [by left|].
  apply lookup_singleton_Some in H as [<- <-]. by right.
Qed.

Lemma c_api_environment_bridging_header decls :
  c_api_environment decls !! bridging_header_h = Some bridging_header.
Proof.
  unfold c_api_environment.
  rewrite lookup_insert_ne by apply c_api_h_not_bridging_header_h.
  apply lookup_singleton_eq.
Qed.

Lemma c_api_environment_c_api decls :
  c_api_environment decls !! c_api_h = Some (c_api_header decls).
Proof. unfold c_api_environment. apply lookup_insert_eq. Qed.

Lemma c_api_header_forallb (p : line → bool) decls :
  (∀ t, p (Text t) = true) → forallb p (c_api_header decls) = true.
Proof.
  intros Hp. unfold c_api_header. induction decls as [|t decls IH]; [done|].
  rewrite fmap_cons. cbn [forallb]. by rewrite Hp, IH.
Qed.

Lemma c_api_environment_oblivious decls :
  guard_free_declarations decls = true → oblivious (c_api_environment decls).
Proof.
  intros Hdecls p f [[-> ->]|[-> ->]]%c_api_environment_lookup Hp; [|done].
  unfold c_api_header, guard_free_declarations in *.
  induction decls as [|t decls IH]; [done|].
  simpl in Hdecls. apply andb_true_iff in Hdecls as [Ht Hdecls].
  rewrite fmap_cons. cbn [forallb ignores_bridging_header]. by rewrite Ht, IH.
Qed.

Lemma c_api_environment_never_undefined decls m :
  never_undefined (c_api_environment decls) m.
Proof.
  intros p f [[-> ->]|[-> ->]]%c_api_environment_lookup.
  - unfold c_api_header. intros (t & ? & _)%list_elem_of_fmap. done.
  - rewrite bridging_header_lines. intros Hin. each_line Hin.
Qed.

Lemma c_api_environment_acyclic decls :
  acyclic_apart_from_bridging_header (c_api_environment decls) (λ _, 0).
Proof.
  intros p f [[-> ->]|[-> ->]]%c_api_environment_lookup; [right|by left].
  by apply c_api_header_forallb.
Qed.

(** The lines of the C API header are emitted one by one. *)
Lemma process_lines_c_api_header enter self decls st :
  process_lines enter self (c_api_header decls) [] st =
  Ok (PPState (macros st) (entered st) (once st)
        (emitted st ++ emitted_from self (macros st) decls)).
Proof.
  unfold c_api_header, emitted_from. revert st.
  induction decls as [|t decls IH]; intros st.
  - simpl. rewrite app_nil_r. by destruct st.
  - rewrite !fmap_cons, process_lines_cons. simpl. rewrite IH. simpl.
    by rewrite <- app_assoc.
Qed.

(** Where no header undefines the guard, a first [#include] of the
    bridging header leaves a settled state. *)
Lemma include_settles_never_undefined fs d from st st1 :
  fs !! bridging_header_h = Some bridging_header →
  never_undefined fs SHERPAONNX_BRIDGING_HEADER_H_ →
  enter_file fs (S d) from false bridging_header_h st = Ok st1 →
  settled st1.
Proof.
  intros Hfs Hnever H. rewrite include_bridging_header in H by done.
  case_bool_decide as Ho; [|injection H as <-; by left].
  destruct (defined _ st) eqn:Hdef.
  - injection H as <-. right. split; [done|apply mark_entered_in].
  - right. split.
    + eapply enter_file_keeps_defined; [exact Hnever|exact H|].
      apply defined_with_guard_eq.
    + eapply enter_file_entered; [exact H|]. apply mark_entered_in.
Qed.

(** ** The line classifier on other lines *)

Example parse_line_include :
  Lexer.parse_line "#include <stdint.h>" = Include "stdint.h".
Proof. reflexivity. Qed.

Example parse_line_define :
  Lexer.parse_line "  #  define SHERPA_ONNX_API extern  // exported" =
  Define "SHERPA_ONNX_API" "extern".
Proof. reflexivity. Qed.

Example parse_line_text :
  Lexer.parse_line "int32_t SherpaOnnxFileExists(const char *filename); // 1 if it does" =
  Text "int32_t SherpaOnnxFileExists(const char *filename);".
Proof. reflexivity. Qed.

Example parse_line_pragma_once : Lexer.parse_line "#pragma once" = Pragma "once".
Proof. reflexivity. Qed.

Example parse_line_unknown : Lexer.parse_line "#warn x" = BadDirective "warn".
Proof. reflexivity. Qed.

(** ** The preprocessor on small inputs *)

Example import_twice :
  preprocess sample_fs 2 main_m [Import c_api_h; Import c_api_h] initial_state =
  preprocess sample_fs 2 main_m [Import c_api_h] initial_state.
Proof. by vm_compute. Qed.

Example include_after_import :
  outcome_map emitted
    (preprocess sample_fs 2 main_m [Import c_api_h; Include c_api_h] initial_state) =
  outcome_map emitted (preprocess sample_fs 2 main_m [Import c_api_h] initial_state).
Proof. by vm_compute. Qed.

Example include_not_found :
  preprocess ∅ 2 main_m [Include c_api_h] initial_state =
  Err main_m (FileNotFound c_api_h).
Proof. by vm_compute. Qed.

Example else_branch :
  outcome_map emitted
    (preprocess ∅ 0 main_m
       [Ifdef "X"; Text "int a;"; Else; Text "int b;"; Endif] initial_state) =
  Ok [(main_m, ["int"; "b"; ";"])].
Proof. by vm_compute. Qed.

Example unterminated_conditional :
  preprocess ∅ 0 main_m [Ifndef "X"; Text "int a;"] initial_state =
  Err main_m UnterminatedConditional.
Proof. by vm_compute. Qed.

Example bridging_header_emits :
  outcome_map emitted (process_bridging_header sample_fs 2 initial_state) =
  Ok [ ("stdint.h", ["typedef"; "int"; "int32_t"; ";"]);
       (c_api_h, ["typedef"; "struct"; "SherpaOnnxOnlineRecognizer";
                  "SherpaOnnxOnlineRecognizer"; ";"]);
       (c_api_h, ["void"; "SherpaOnnxDestroyOnlineRecognizer"; "("; "const";
                  "SherpaOnnxOnlineRecognizer"; "*"; "r"; ");"]) ].
Proof. by vm_compute. Qed.

Example expand_line_nested :
  expand_line (<["A" := "B"]> (<["B" := "A x"]> (<["N" := "3"]> ∅)))
    "A; B; int a[N]; N1 -N" =
  ["A"; "x"; ";"; "B"; "x"; ";"; "int"; "a"; "["; "3"; "];"; "N1"; "-"; "3"].
Proof. by vm_compute. Qed.

Example expand_line_literals :
  expand_line (<["N" := "3"]> ∅) (Lexer.quoted "N" ++ " 'N' N") =
  [Lexer.quoted "N"; "'N'"; "3"].
Proof. by vm_compute. Qed.

(** So is a declaration that names a macro whose body is the guard. *)
Example macro_naming_guard_alters_declaration :
  outcome_map emitted
    (process_bridging_header (<[ c_api_h := [Text "int FOO;"] ]> ∅) 1
       (define "FOO" SHERPAONNX_BRIDGING_HEADER_H_ initial_state))
  = Ok [(c_api_h, ["int"; ";"])] ∧
  outcome_map emitted
    (preprocess (<[ c_api_h := [Text "int FOO;"] ]> ∅) 1 main_m [Import c_api_h]
       (define "FOO" SHERPAONNX_BRIDGING_HEADER_H_ initial_state))
  = Ok [(c_api_h, ["int"; SHERPAONNX_BRIDGING_HEADER_H_; ";"])].
Proof. by vm_compute. Qed.

(** A declaration that names the guard macro is altered when it is read
    after line 7. *)
Example guard_alters_declaration :
  outcome_map emitted
    (process_bridging_header
       (<[ c_api_h := [Text "int SHERPAONNX_BRIDGING_HEADER_H_;"] ]> ∅) 1 initial_state)
  = Ok [(c_api_h, ["int"; ";"])].
Proof. by vm_compute. Qed.

Example bridging_header_again :
  outcome_map emitted
    (bind (process_bridging_header sample_fs 2 initial_state)
          (process_bridging_header sample_fs 2)) =
  outcome_map emitted (process_bridging_header sample_fs 2 initial_state).
Proof. by vm_compute. Qed.

(** ** The bridging header and a direct import *)

Lemma preprocess_import fs d self st :
  preprocess fs d self [Import c_api_h] st = enter_file fs d self true c_api_h st.
Proof. unfold preprocess. simpl. by destruct (enter_file fs d self true c_api_h st). Qed.

Lemma bridging_header_as_direct_import fs d self st :
  oblivious fs →
  guard_free st →
  defined SHERPAONNX_BRIDGING_HEADER_H_ st = false →
  preprocess fs d self bridging_header st =
  outcome_map with_guard (preprocess fs d self [Import c_api_h] st).
Proof.
  intros Hfs Hfree Hst. rewrite preprocess_import. unfold preprocess.
  rewrite process_lines_bridging_header, Hst.
  by apply (enter_file_with_guard fs Hfs d self true c_api_h
              c_api_h_not_bridging_header_h st).
Qed.

Lemma emitted_with_guard (o : outcome pp_state) :
  outcome_map emitted (outcome_map with_guard o) = outcome_map emitted o.
Proof. by destruct o. Qed.

Lemma emitted_from_with_guard origin st decls :
  guard_free st →
  guard_free_declarations decls = true →
  emitted_from origin (macros (with_guard st)) decls =
  emitted_from origin (macros st) decls.
Proof.
  intros Hst. unfold emitted_from, guard_free_declarations.
  induction decls as [|t decls IH]; [done|]. intros Hdecls.
  simpl in Hdecls. apply andb_true_iff in Hdecls as [Ht Hdecls].
  apply negb_true_iff in Ht.
  rewrite !fmap_cons, IH by done. by rewrite expand_line_with_guard.
Qed.

(** * The claims *)

(** C1.  In a translation unit, including the bridging header two or
    more times gives the outcome of including it once, emitted text and
    preprocessor state alike.  In the environment the specification
    describes this holds from every state.  In any environment that
    holds the header, the same text is emitted; the whole outcome is the
    same when the first inclusion leaves the guard macro defined; and
    an inclusion that finds the guard defined and the header entered
    changes nothing. *)
Theorem repeated_inclusion_same_as_once :
  (∀ decls d self n st,
     preprocess (c_api_environment decls) (S d) self
       (includes_bridging_header (S (S n))) st =
     preprocess (c_api_environment decls) (S d) self
       (includes_bridging_header 1) st) ∧
  (∀ fs d self n st,
     fs !! bridging_header_h = Some bridging_header →
     outcome_map emitted (preprocess fs (S d) self (includes_bridging_header (S (S n))) st) =
       outcome_map emitted (preprocess fs (S d) self (includes_bridging_header 1) st) ∧
     ((∀ st1, preprocess fs (S d) self (includes_bridging_header 1) st = Ok st1 →
         defined SHERPAONNX_BRIDGING_HEADER_H_ st1 = true) →
      preprocess fs (S d) self (includes_bridging_header (S (S n))) st =
      preprocess fs (S d) self (includes_bridging_header 1) st) ∧
     (∀ from s, defined SHERPAONNX_BRIDGING_HEADER_H_ s = true →
        bridging_header_h ∈ entered s →
        enter_file fs (S d) from false bridging_header_h s = Ok s)).
Proof.
  split.
  - intros decls d self n st.
    pose proof (c_api_environment_bridging_header decls) as Hfs.
    rewrite includes_succ_eq, !include_once_eq by done.
    destruct (enter_file _ (S d) self false bridging_header_h st) as [st1| |] eqn:E;
      simpl; try done.
    apply (includes_settled _ Hfs d self (S n)).
    eapply include_settles_never_undefined; [done| |exact E].
    apply c_api_environment_never_undefined.
  - intros fs d self n st Hfs.
    rewrite includes_succ_eq, !include_once_eq by done. split_and!.
    + destruct (enter_file fs (S d) self false bridging_header_h st) as [st1| |] eqn:E;
        simpl; try done.
      destruct (includes_visited fs Hfs d self (S n) st1) as (st2 & -> & He & _).
      * by eapply include_visits.
      * simpl. by rewrite He.
    + intros Hguard.
      destruct (enter_file fs (S d) self false bridging_header_h st) as [st1| |] eqn:E;
        simpl; try done.
      apply (includes_settled fs Hfs d self (S n)).
      eapply include_settles; eauto.
    + intros from s Hdef Hin. apply include_settled; [done|]. by right.
Qed.

Lemma sample_fs_bridging_header :
  sample_fs !! bridging_header_h = Some bridging_header.
Proof. by vm_compute. Qed.

Lemma repeated_inclusion_witness :
  sample_fs !! bridging_header_h = Some bridging_header ∧
  outcome_map emitted (preprocess sample_fs 3 main_m (includes_bridging_header 3) initial_state) =
    outcome_map emitted (preprocess sample_fs 3 main_m (includes_bridging_header 1) initial_state) ∧
  preprocess sample_fs 3 main_m (includes_bridging_header 3) initial_state =
  preprocess sample_fs 3 main_m (includes_bridging_header 1) initial_state.
Proof.
  split; [exact sample_fs_bridging_header|].
  destruct repeated_inclusion_same_as_once as (_ & Hany).
  destruct (Hany sample_fs 2 main_m 1 initial_state sample_fs_bridging_header)
    as (Hemitted & Hstate & _).
  split; [exact Hemitted|]. apply Hstate.
  intros st1 H. vm_compute in H. injection H as <-. by vm_compute.
Defined.


Lemma exporting_fs_oblivious : oblivious exporting_fs.
Proof.
  intros p f H Hp. unfold exporting_fs, sample_fs in H.
  apply lookup_insert_Some in H as [[<- <-]|[_ H]]; [by vm_compute|].
  apply lookup_insert_Some in H as [[<- <-]|[_ H]]; [by vm_compute|].
  apply lookup_insert_Some in H as [[<- <-]|[_ H]]; [by vm_compute|].
  apply lookup_singleton_Some in H as [<- <-]. by destruct Hp.
Qed.

Lemma sample_state_guard_free : guard_free sample_state.
Proof.
  intros m body. unfold sample_state, define. simpl.
  intros [[_ <-]|[_ H]]%lookup_insert_Some; [by vm_compute|].
  by rewrite lookup_empty in H.
Qed.




(** C4.  Apart from comments and blank lines the file is one [#import]
    inside a header guard: [#ifndef G], [#define G], the import, [#endif],
    with one directive of each kind and nothing else. *)
Theorem bridging_header_is_guarded_import :
  code_lines bridging_header =
    [ Ifndef SHERPAONNX_BRIDGING_HEADER_H_;
      Define SHERPAONNX_BRIDGING_HEADER_H_ "";
      Import c_api_h;
      Endif ] ∧
  count_lines is_import bridging_header = 1 ∧
  count_lines is_ifndef bridging_header = 1 ∧
  count_lines is_define bridging_header = 1 ∧
  count_lines is_endif bridging_header = 1 ∧
  List.length (code_lines bridging_header) = 4.
Proof. rewrite bridging_header_lines. by vm_compute. Qed.

(** C5.  The bridging header has no [#error] and no malformed
    directive.  In the environment the specification describes,
    processing it succeeds from every state.  In any environment where
    the C API header can be found, processing it is: nothing when the
    guard is defined, nothing but the marks of [#import] when the C API
    header was entered before, and otherwise the processing of the C API
    header's own lines; an error, if there is one, is raised in another
    file. *)
Theorem bridging_header_raises_no_error :
  (∀ l, l ∈ bridging_header → ∀ s, l ≠ ErrorDirective s ∧ l ≠ BadDirective s) ∧
  (∀ decls d st, ∃ st',
     process_bridging_header (c_api_environment decls) (S d) st = Ok st') ∧
  (∀ fs d st f,
     fs !! c_api_h = Some f →
     (∀ g, fs !! bridging_header_h = Some g → g = bridging_header) →
     process_bridging_header fs (S d) st =
       (if defined SHERPAONNX_BRIDGING_HEADER_H_ st then Ok st
        else if bool_decide (c_api_h ∈ entered st)
             then Ok (mark_once c_api_h (with_guard st))
             else process_lines (enter_file fs d) c_api_h f []
                    (mark_entered c_api_h (mark_once c_api_h (with_guard st)))) ∧
     (∀ o e, process_bridging_header fs (S d) st = Err o e → o ≠ bridging_header_h)).
Proof.
  assert (∀ fs d st f,
     fs !! c_api_h = Some f →
     process_bridging_header fs (S d) st =
       (if defined SHERPAONNX_BRIDGING_HEADER_H_ st then Ok st
        else if bool_decide (c_api_h ∈ entered st)
             then Ok (mark_once c_api_h (with_guard st))
             else process_lines (enter_file fs d) c_api_h f []
                    (mark_entered c_api_h (mark_once c_api_h (with_guard st))))) as Heq.
  { intros fs d st f Hapi.
    rewrite process_bridging_header_eq. destruct (defined _ st); [done|].
    rewrite enter_file_unfold, Hapi. cbv zeta. unfold should_enter.
    change (entered (with_guard st)) with (entered st).
    by repeat case_bool_decide. }
  split_and!.
  - intros l Hl. rewrite bridging_header_lines in Hl. each_line Hl.
  - intros decls d st. rewrite (Heq _ _ _ (c_api_header decls)).
    + destruct (defined _ st); [eauto|]. case_bool_decide; [eauto|].
      rewrite process_lines_c_api_header. eauto.
    + unfold c_api_environment. apply lookup_insert_eq.
  - intros fs d st f Hapi Hself. split; [by apply Heq|].
    intros o e. rewrite process_bridging_header_eq. destruct (defined _ st); [done|].
    intros H. assert (is_Some (fs !! c_api_h)) as Hs by (by rewrite Hapi).
    apply (enter_file_err_origin fs Hself Hs) in H as [?|(_ & _ & Hnone)];
      [done|congruence].
Qed.

Lemma failing_fs_bridging_header g :
  failing_fs !! bridging_header_h = Some g → g = bridging_header.
Proof. vm_compute. by intros [= <-]. Qed.

Lemma bridging_header_raises_no_error_witness :
  process_bridging_header failing_fs 2 initial_state =
    Err c_api_h (UserError "unsupported platform") ∧
  (∀ o e, process_bridging_header failing_fs 2 initial_state = Err o e →
     o ≠ bridging_header_h).
Proof.
  split; [by vm_compute|].
  destruct bridging_header_raises_no_error as (_ & _ & Hany).
  apply (Hany failing_fs 1 initial_state [ErrorDirective "unsupported platform"]).
  - by vm_compute.
  - exact failing_fs_bridging_header.
Defined.

(** C6.  The outcome of processing the bridging header is a function of
    the incoming state and of the environment: two runs from equal
    states that both come to an end have equal outcomes, whatever depth
    each was allowed.  The outcome is the incoming state when the guard
    is defined, in whatever environment, and that of the import of the
    C API header otherwise; the header does nothing else. *)
Theorem process_bridging_header_deterministic :
  (∀ fs d1 d2 st1 st2,
     st1 = st2 →
     process_bridging_header fs d1 st1 ≠ TooDeep →
     process_bridging_header fs d2 st2 ≠ TooDeep →
     process_bridging_header fs d1 st1 = process_bridging_header fs d2 st2) ∧
  (∀ fs d st,
     process_bridging_header fs d st =
       (if defined SHERPAONNX_BRIDGING_HEADER_H_ st then Ok st
        else enter_file fs d bridging_header_h true c_api_h (with_guard st))) ∧
  (∀ fs1 fs2 d1 d2 st,
     defined SHERPAONNX_BRIDGING_HEADER_H_ st = true →
     process_bridging_header fs1 d1 st = process_bridging_header fs2 d2 st).
Proof.
  split_and!.
  - intros fs d1 d2 st1 st2 <- H1 H2. unfold process_bridging_header in *.
    destruct (Nat.le_ge_cases d1 d2).
    + symmetry. by apply preprocess_deeper.
    + by apply preprocess_deeper.
  - apply process_bridging_header_eq.
  - intros fs1 fs2 d1 d2 st Hdef. by rewrite !process_bridging_header_eq, Hdef.
Qed.

Lemma process_bridging_header_deterministic_witness :
  process_bridging_header sample_fs 2 initial_state ≠ TooDeep ∧
  process_bridging_header sample_fs 5 initial_state ≠ TooDeep ∧
  process_bridging_header sample_fs 2 initial_state =
  process_bridging_header sample_fs 5 initial_state.
Proof.
  assert (process_bridging_header sample_fs 2 initial_state ≠ TooDeep) as H2
    by (by vm_compute).
  assert (process_bridging_header sample_fs 5 initial_state ≠ TooDeep) as H5
    by (by vm_compute).
  split_and!; [exact H2|exact H5|].
  destruct process_bridging_header_deterministic as (Hruns & _).
  exact (Hruns sample_fs 2 5 initial_state initial_state eq_refl H2 H5).
Defined.

(** C7.  After every processing of the bridging header the guard macro
    is defined: in the environment the specification describes, and in
    any environment where no header undefines it.  A processing that
    starts with the guard defined leaves the state as it is, so the
    guard stays defined; the guard is the only macro the file defines,
    and the file undefines none. *)
Theorem guard_macro_invariant :
  (∀ decls d st st',
     process_bridging_header (c_api_environment decls) d st = Ok st' →
     defined SHERPAONNX_BRIDGING_HEADER_H_ st' = true) ∧
  (∀ fs d st st',
     process_bridging_header fs d st = Ok st' →
     (defined SHERPAONNX_BRIDGING_HEADER_H_ st = true → st' = st) ∧
     (never_undefined fs SHERPAONNX_BRIDGING_HEADER_H_ →
      defined SHERPAONNX_BRIDGING_HEADER_H_ st' = true)) ∧
  (∀ m body, Define m body ∈ bridging_header → m = SHERPAONNX_BRIDGING_HEADER_H_) ∧
  (∀ m, Undef m ∉ bridging_header).
Proof.
  assert (∀ fs d st st',
     process_bridging_header fs d st = Ok st' →
     (defined SHERPAONNX_BRIDGING_HEADER_H_ st = true → st' = st) ∧
     (never_undefined fs SHERPAONNX_BRIDGING_HEADER_H_ →
      defined SHERPAONNX_BRIDGING_HEADER_H_ st' = true)) as Hany.
  { intros fs d st st'. rewrite process_bridging_header_eq. intros H. split.
    - intros Hdef. rewrite Hdef in H. by injection H.
    - intros Hfs. destruct (defined _ st) eqn:Hdef; [by injection H as <-|].
      eapply enter_file_keeps_defined; [exact Hfs|exact H|].
      apply defined_with_guard_eq. }
  split_and!.
  - intros decls d st st' H. apply (Hany _ _ _ _ H).
    apply c_api_environment_never_undefined.
  - exact Hany.
  - intros m body. rewrite bridging_header_lines. intros Hin. each_line Hin.
  - intros m. rewrite bridging_header_lines. intros Hin. each_line Hin.
Qed.

Lemma sample_fs_never_undefined :
  never_undefined sample_fs SHERPAONNX_BRIDGING_HEADER_H_.
Proof.
  unfold sample_fs. intros p f H.
  apply lookup_insert_Some in H as [[<- <-]|[_ H]]; [compute_done|].
  apply lookup_insert_Some in H as [[<- <-]|[_ H]]; [compute_done|].
  apply lookup_singleton_Some in H as [<- <-]. compute_done.
Qed.

Lemma guard_macro_invariant_witness :
  never_undefined sample_fs SHERPAONNX_BRIDGING_HEADER_H_ ∧
  ∃ st', process_bridging_header sample_fs 2 initial_state = Ok st' ∧
    defined SHERPAONNX_BRIDGING_HEADER_H_ st' = true.
Proof.
  split; [exact sample_fs_never_undefined|].
  eexists. split; [by vm_compute|].
  destruct guard_macro_invariant as (_ & Hany & _).
  destruct (Hany sample_fs 2 initial_state _ eq_refl) as (_ & Hdef).
  apply Hdef. exact sample_fs_never_undefined.
Defined.

(** C8.  Processing the bridging header comes to an end: at every depth
    that lets it enter the C API header it has one and the same outcome,
    which is not a depth overrun.  This holds in the environment the
    specification describes, and in any environment with no inclusion
    cycle that avoids the bridging header, even when the C API header
    includes the bridging header back.  The file includes the C API
    header only, never itself, and with the guard defined it needs no
    depth at all. *)
Theorem process_bridging_header_terminates :
  (∀ decls st, ∃ o, o ≠ TooDeep ∧
     ∀ d, (0 < d)%nat → process_bridging_header (c_api_environment decls) d st = o) ∧
  (∀ fs rank st,
     acyclic_apart_from_bridging_header fs rank →
     ∃ o, o ≠ TooDeep ∧
       ∀ d, (rank c_api_h < d)%nat → process_bridging_header fs d st = o) ∧
  (∀ l q, l ∈ bridging_header → inclusion_target l = Some q →
     q = c_api_h ∧ q ≠ bridging_header_h) ∧
  (∀ fs st, defined SHERPAONNX_BRIDGING_HEADER_H_ st = true →
     process_bridging_header fs 0 st = Ok st).
Proof.
  assert (∀ fs rank st,
     acyclic_apart_from_bridging_header fs rank →
     ∃ o, o ≠ TooDeep ∧
       ∀ d, (rank c_api_h < d)%nat → process_bridging_header fs d st = o) as Hany.
  { intros fs rank st Hfs.
    assert (∀ d, (rank c_api_h < d)%nat →
              process_bridging_header fs d st ≠ TooDeep) as Hend.
    { intros d Hd. rewrite process_bridging_header_eq.
      destruct (defined _ st); [done|].
      apply (enter_file_bounded fs rank Hfs); [done|by right]. }
    exists (process_bridging_header fs (S (rank c_api_h)) st). split.
    - apply Hend. lia.
    - intros d Hd. apply preprocess_deeper; [lia|]. apply Hend. lia. }
  split_and!.
  - intros decls st.
    apply (Hany (c_api_environment decls) (λ _, 0) st), c_api_environment_acyclic.
  - exact Hany.
  - intros l q. rewrite bridging_header_lines. intros Hin. each_line Hin.
  - intros fs st Hdef. by rewrite process_bridging_header_eq, Hdef.
Qed.

Lemma reentrant_fs_acyclic : acyclic_apart_from_bridging_header reentrant_fs sample_rank.
Proof.
  intros p f H. unfold reentrant_fs, sample_fs in H.
  apply lookup_insert_Some in H as [[<- <-]|[_ H]]; [right; by vm_compute|].
  apply lookup_insert_Some in H as [[<- <-]|[_ H]]; [right; by vm_compute|].
  apply lookup_insert_Some in H as [[<- <-]|[_ H]]; [right; by vm_compute|].
  apply lookup_singleton_Some in H as [<- <-]. by left.
Qed.

Lemma process_bridging_header_terminates_witness :
  acyclic_apart_from_bridging_header reentrant_fs sample_rank ∧
  ∃ o, o ≠ TooDeep ∧
    ∀ d, (sample_rank c_api_h < d)%nat →
      process_bridging_header reentrant_fs d initial_state = o.
Proof.
  split; [exact reentrant_fs_acyclic|].
  destruct process_bridging_header_terminates as (_ & Hany & _).
  exact (Hany reentrant_fs sample_rank initial_state reentrant_fs_acyclic).
Defined.

(** * Further properties of the bridging header *)

Lemma mark_once_again p st : p ∈ once st → mark_once p st = st.
Proof.
  intros Hp. destruct st as [m en on em]. unfold mark_once. simpl in *.
  f_equal. by apply subseteq_union_1_L, singleton_subseteq_l.
Qed.

Lemma mark_once_in p st : p ∈ once (mark_once p st).
Proof. simpl. apply elem_of_union_l. by apply elem_of_singleton. Qed.

(** A header that was imported with success is marked as imported. *)
Lemma enter_file_import_once fs depth from p st st' :
  enter_file fs depth from true p st = Ok st' → p ∈ once st'.
Proof.
  rewrite enter_file_unfold. destruct (fs !! p) as [f|]; [|done].
  cbv zeta. destruct (should_enter true p st).
  - destruct depth as [|d]; [done|]. intros H.
    apply process_lines_grows in H as (_ & Ho & _). apply Ho. simpl.
    apply mark_once_in.
  - intros [= <-]. apply mark_once_in.
Qed.

Lemma defined_with_guard_keeps m st :
  defined m st = true → defined m (with_guard st) = true.
Proof.
  unfold defined, with_guard, define. simpl. rewrite !bool_decide_eq_true.
  intros Hm. destruct (decide (SHERPAONNX_BRIDGING_HEADER_H_ = m)) as [<-|Hne].
  - rewrite lookup_insert_eq. eauto.
  - by rewrite lookup_insert_ne.
Qed.

(** X1.  When the C API header cannot be found, a processing of the
    bridging header that gets to line 9 fails, at every depth, with
    "file not found" for [sherpa-onnx/c-api/c-api.h], raised in the
    bridging header; so does an [#include] of the bridging header from
    any file.  With the guard defined line 9 is never reached and the
    processing succeeds. *)
Theorem missing_c_api_is_reported fs d st :
  fs !! c_api_h = None →
  (defined SHERPAONNX_BRIDGING_HEADER_H_ st = false →
   process_bridging_header fs d st = Err bridging_header_h (FileNotFound c_api_h)) ∧
  (defined SHERPAONNX_BRIDGING_HEADER_H_ st = false →
   fs !! bridging_header_h = Some bridging_header →
   bridging_header_h ∉ once st →
   ∀ from, enter_file fs (S d) from false bridging_header_h st =
           Err bridging_header_h (FileNotFound c_api_h)) ∧
  (defined SHERPAONNX_BRIDGING_HEADER_H_ st = true →
   process_bridging_header fs d st = Ok st).
Proof.
  intros Hnone. split_and!.
  - intros Hdef. by rewrite process_bridging_header_eq, Hdef, enter_file_unfold, Hnone.
  - intros Hdef Hfs Ho from. rewrite include_bridging_header by done.
    rewrite bool_decide_eq_true_2 by done.
    by rewrite Hdef, enter_file_unfold, Hnone.
  - intros Hdef. by rewrite process_bridging_header_eq, Hdef.
Qed.

Lemma missing_c_api_is_reported_witness :
  missing_c_api_fs !! c_api_h = None ∧
  process_bridging_header missing_c_api_fs 2 initial_state =
    Err bridging_header_h (FileNotFound c_api_h) ∧
  enter_file missing_c_api_fs 3 main_m false bridging_header_h initial_state =
    Err bridging_header_h (FileNotFound c_api_h).
Proof.
  assert (missing_c_api_fs !! c_api_h = None) as Hnone by (by vm_compute).
  split; [exact Hnone|].
  destruct (missing_c_api_is_reported missing_c_api_fs 2 initial_state Hnone)
    as (Hmain & Hinclude & _).
  split; [exact (Hmain eq_refl)|].
  apply Hinclude; [done|by vm_compute|]. apply not_elem_of_empty.
Defined.

(** X2.  After a processing of the bridging header that started without
    the guard and succeeded, the C API header is marked as entered and
    as imported, so any later [#include] or [#import] of it, from any
    file and at any depth, leaves the state as it is: its declarations
    are not emitted a second time. *)
Theorem c_api_not_included_again fs d st st' :
  process_bridging_header fs d st = Ok st' →
  defined SHERPAONNX_BRIDGING_HEADER_H_ st = false →
  c_api_h ∈ entered st' ∧ c_api_h ∈ once st' ∧
  ∀ d' from is_import, enter_file fs d' from is_import c_api_h st' = Ok st'.
Proof.
  rewrite process_bridging_header_eq. intros H Hdef. rewrite Hdef in H.
  destruct (enter_file_import_entered _ _ _ _ _ _ H) as (Hentered & [f Hf]).
  pose proof (enter_file_import_once _ _ _ _ _ _ H) as Honce.
  split_and!; [done..|].
  intros d' from imp. rewrite enter_file_unfold, Hf. cbv zeta.
  unfold should_enter. destruct imp.
  - rewrite bool_decide_eq_false_2 by eauto. by rewrite mark_once_again.
  - by rewrite bool_decide_eq_false_2 by eauto.
Qed.

Lemma c_api_not_included_again_witness :
  ∃ st', process_bridging_header sample_fs 2 initial_state = Ok st' ∧
    preprocess sample_fs 2 main_m [Include c_api_h; Import c_api_h] st' = Ok st'.
Proof.
  destruct (process_bridging_header sample_fs 2 initial_state) as [st'| |] eqn:E;
    [|by vm_compute in E..].
  exists st'. split; [done|].
  destruct (c_api_not_included_again sample_fs 2 initial_state st' E eq_refl)
    as (_ & _ & Hagain).
  unfold preprocess. rewrite !process_lines_cons. simpl.
  rewrite (Hagain 2 main_m false). simpl. by rewrite (Hagain 2 main_m true).
Defined.

(** X3.  In the environment the specification describes, a processing
    of the bridging header that starts without the guard and before the
    C API header was entered emits every declaration of the C API
    header, in the order of the header and each once, after what was
    emitted before, each expanded with the macros of the incoming state
    and the guard; it defines the guard with an empty body, marks the
    C API header as entered and imported, and changes nothing else. *)
Theorem bridging_header_emits_all_declarations decls d st :
  defined SHERPAONNX_BRIDGING_HEADER_H_ st = false →
  c_api_h ∉ entered st →
  process_bridging_header (c_api_environment decls) (S d) st =
  Ok (after_first_import decls st).
Proof.
  intros Hdef Hin.
  rewrite process_bridging_header_eq, Hdef, enter_file_unfold, c_api_environment_c_api.
  cbv zeta. unfold should_enter. rewrite bool_decide_eq_true_2 by done.
  by rewrite process_lines_c_api_header.
Qed.

Lemma bridging_header_emits_all_declarations_witness :
  outcome_map emitted
    (process_bridging_header (c_api_environment two_declarations) 1 sample_state) =
  Ok [ (c_api_h, ["typedef"; "struct"; "SherpaOnnxWave"; "SherpaOnnxWave"; ";"]);
       (c_api_h, ["extern"; "void"; "SherpaOnnxFreeWave"; "("; "const";
                  "SherpaOnnxWave"; "*"; "wave"; ");"]) ].
Proof.
  rewrite (bridging_header_emits_all_declarations two_declarations 0 sample_state).
  - by vm_compute.
  - by vm_compute.
  - apply not_elem_of_empty.
Defined.

(** X4.  A processing of the bridging header takes nothing back: the
    headers entered or imported before stay so, what was emitted before
    stays emitted first, and every macro that was defined and that no
    header of the environment undefines is still defined. *)
Theorem bridging_header_takes_nothing_back fs d st st' :
  process_bridging_header fs d st = Ok st' →
  grows st st' ∧
  ∀ m, never_undefined fs m → defined m st = true → defined m st' = true.
Proof.
  rewrite process_bridging_header_eq. intros H.
  destruct (defined SHERPAONNX_BRIDGING_HEADER_H_ st) eqn:Hdef.
  - injection H as <-. split; [apply grows_refl|done].
  - split.
    + by apply enter_file_grows in H.
    + intros m Hfs Hm. eapply enter_file_keeps_defined; [exact Hfs|exact H|].
      by apply defined_with_guard_keeps.
Qed.

Lemma bridging_header_takes_nothing_back_witness :
  ∃ st', process_bridging_header sample_fs 2
           (define "TARGET_OS_OSX" "1" (mark_entered "Foundation.h" initial_state))
         = Ok st' ∧
    "Foundation.h" ∈ entered st' ∧ defined "TARGET_OS_OSX" st' = true.
Proof.
  destruct (process_bridging_header sample_fs 2
              (define "TARGET_OS_OSX" "1" (mark_entered "Foundation.h" initial_state)))
    as [st'| |] eqn:E; [|by vm_compute in E..].
  exists st'. split; [done|].
  destruct (bridging_header_takes_nothing_back sample_fs 2 _ st' E)
    as ((Hentered & _) & Hmacros).
  split.
  - apply Hentered, mark_entered_in.
  - apply Hmacros; [|by vm_compute].
    unfold sample_fs. intros p f H.
    apply lookup_insert_Some in H as [[<- <-]|[_ H]]; [compute_done|].
    apply lookup_insert_Some in H as [[<- <-]|[_ H]]; [compute_done|].
    apply lookup_singleton_Some in H as [<- <-]. compute_done.
Defined.


